(** * Recipe generator: prompt builders, inference client, ingredient
    validator and authentication callbacks

    A shallow embedding of the server-side glue of the recipe generator:
    the three prompt templates, the calls to the hosted text and image
    endpoints with their log writes to the document store, and the two
    callbacks of the authentication configuration.  Every external
    service (inference endpoints, document store, console) is a field of
    a [World] record that fixes how each request settles; the functions
    of the source are programs of a small state-and-exception monad that
    record every request they issue. *)

From Stdlib Require Import NArith List String Ascii Bool Lia.
From stdpp Require Import base option list gmap.
Import ListNotations.

Set Default Proof Using "Type".
Set Warnings "-register-all".
Local Open Scope N_scope.

(** ** Strings

    A JavaScript string is a finite sequence of 16-bit code units.  The
    templates of the source are plain ASCII, so their text is written as
    Rocq string literals and converted unit by unit. *)

Definition code_unit := N.
Definition jsstring := list code_unit.

Definition lit (s : string) : jsstring :=
  map N_of_ascii (list_ascii_of_string s).

(** The template text of the source carries double quotes (U+0022) and
    no apostrophe; [tpl] reads a literal in which the apostrophe stands
    for the double quote. *)
Definition dquote : code_unit := 34.
Definition tpl (s : string) : jsstring :=
  map (fun c => if c =? 39 then dquote else c) (lit s).

Definition jsstring_eqb (a b : jsstring) : bool :=
  bool_decide (a = b).

(** [Array.prototype.join] on an array of strings. *)
Fixpoint join (sep : jsstring) (l : list jsstring) : jsstring :=
  match l with
  | [] => []
  | [x] => x
  | x :: rest => x ++ sep ++ join sep rest
  end.

(** [String.prototype.includes]: some suffix of [s] starts with [pat]. *)
Fixpoint starts_with (pat s : jsstring) : bool :=
  match pat, s with
  | [], _ => true
  | _ :: _, [] => false
  | p :: pat', c :: s' => (p =? c) && starts_with pat' s'
  end.

Fixpoint includes (s pat : jsstring) : bool :=
  starts_with pat s ||
  match s with
  | [] => false
  | _ :: s' => includes s' pat
  end.

(** ** Data model

    Modelled from the spec: the types [Ingredient], [DietaryPreference]
    and [Recipe] of the types module, whose declarations are not among
    the source files: an ingredient is [{name, quantity}], a preference a
    string, a recipe [{name, ingredients, instructions,
    dietaryPreference, additionalInformation}]. *)

Record Ingredient := mkIngredient {
  ing_name : jsstring;
  ing_quantity : jsstring
}.

Definition DietaryPreference := jsstring.

Record AdditionalInformation := mkAdditionalInformation {
  tips : jsstring;
  variations : jsstring;
  servingSuggestions : jsstring;
  nutritionalInformation : jsstring
}.

Record Recipe := mkRecipe {
  name : jsstring;
  ingredients : list Ingredient;
  instructions : list jsstring;
  dietaryPreference : list jsstring;
  additionalInformation : AdditionalInformation
}.

(** ** JSON.stringify on the ingredient list

    [QuoteJSONString]: the two-character escapes, a lower-case
    [\uXXXX] for the other control characters and for a surrogate that
    is not part of a pair, every other code unit as it is. *)

Definition hex_digit (d : N) : code_unit :=
  if d <? 10 then 48 + d else 87 + d.

Definition unicode_escape (c : code_unit) : jsstring :=
  [92; 117; hex_digit (c / 4096 mod 16); hex_digit (c / 256 mod 16);
   hex_digit (c / 16 mod 16); hex_digit (c mod 16)].

Definition is_lead_surrogate (c : code_unit) : bool :=
  (55296 <=? c) && (c <=? 56319).
Definition is_trail_surrogate (c : code_unit) : bool :=
  (56320 <=? c) && (c <=? 57343).

Definition quote_unit (c : code_unit) : jsstring :=
  if c =? 8 then lit "\b"
  else if c =? 9 then lit "\t"
  else if c =? 10 then lit "\n"
  else if c =? 12 then lit "\f"
  else if c =? 13 then lit "\r"
  else if c =? 34 then [92; 34]
  else if c =? 92 then [92; 92]
  else if (c <? 32) || is_lead_surrogate c || is_trail_surrogate c
       then unicode_escape c
  else [c].

Fixpoint quote_units (s : jsstring) : jsstring :=
  match s with
  | [] => []
  | c :: s' =>
      match s' with
      | d :: s'' =>
          if is_lead_surrogate c && is_trail_surrogate d
          then c :: d :: quote_units s''
          else quote_unit c ++ quote_units s'
      | [] => quote_unit c
      end
  end.

Definition QuoteJSONString (s : jsstring) : jsstring :=
  dquote :: quote_units s ++ [dquote].

(** An ingredient serialises with its properties in declaration order. *)
Definition stringify_ingredient (i : Ingredient) : jsstring :=
  tpl "{'name':" ++ QuoteJSONString (ing_name i) ++
  tpl ",'quantity':" ++ QuoteJSONString (ing_quantity i) ++ lit "}".

Definition JSON_stringify (l : list Ingredient) : jsstring :=
  lit "[" ++ join (lit ",") (map stringify_ingredient l) ++ lit "]".

(** ** Prompt builder *)

Definition newline : jsstring := [10].

Definition getRecipeGenerationPrompt
    (ingredients : list Ingredient)
    (dietaryPreferences : list DietaryPreference) : jsstring :=
  newline ++
  lit "I have the following ingredients: " ++ JSON_stringify ingredients ++
  lit " " ++
  (if (length dietaryPreferences =? 0)%nat then []
   else lit "and dietary preferences: " ++ join (lit ",") dietaryPreferences) ++
  tpl ". Please provide me with three different delicious recipes. The response should be in the following JSON format without any additional text or markdown:
[
    {
        'name': 'Recipe Name',
        'ingredients': [
            {'name': 'Ingredient 1', 'quantity': 'quantity and unit'},
            {'name': 'Ingredient 2', 'quantity': 'quantity and unit'},
            ...
        ],
        'instructions': [
            'Step 1',
            'Step 2',
            ...
        ],
        'dietaryPreference': ['Preference 1', 'Preference 2', ...],
        'additionalInformation': {
            'tips': 'Some cooking tips or advice.',
            'variations': 'Possible variations of the recipe.',
            'servingSuggestions': 'Suggestions for serving the dish.',
            'nutritionalInformation': 'Nutritional information about the recipe.'
        }
    },
    ...
]
Please ensure the recipes are diverse and use the ingredients listed. The recipes should follow the dietary preferences provided. The instructions should be ordered but not include the step numbers.
".

Definition getImageGenerationPrompt
    (recipeName : jsstring) (ingredients : list Ingredient) : jsstring :=
  let allIngredients := join (lit ", ") (map ing_name ingredients) in
  lit "Create an image of a delicious " ++ recipeName ++
  lit " made of these ingredients: " ++ allIngredients ++
  lit ". The image should be visually appealing and showcase the dish in an appetizing manner.".

Definition getIngredientValidationPrompt (ingredientName : jsstring) : jsstring :=
  lit "You are a food ingredient validation assistant. Given this ingredient name: " ++ ingredientName ++
  tpl ", you will respond with a JSON object in the following format:

{
  'isValid': true/false,
  'possibleVariations': ['variation1', 'variation2', 'variation3']
}

The 'isValid' field should be true if the ingredient is commonly used in recipes and false otherwise. The 'possibleVariations' field should be an array containing 2 or 3 variations or related ingredients to the provided ingredient name. If no variations or related ingredients are real and commonly used, return an empty array.

Do not include any Markdown formatting or code blocks in your response. Return only valid JSON.".

(** ** String.prototype.trim

    White space and line terminators of the language: TAB, LF, VT, FF,
    CR, SP, NBSP, U+1680, U+2000..U+200A, U+2028, U+2029, U+202F,
    U+205F, U+3000 and U+FEFF. *)

Definition is_js_space (c : code_unit) : bool :=
  ((9 <=? c) && (c <=? 13)) || (c =? 32) || (c =? 160) || (c =? 5760) ||
  ((8192 <=? c) && (c <=? 8202)) || (c =? 8232) || (c =? 8233) ||
  (c =? 8239) || (c =? 8287) || (c =? 12288) || (c =? 65279).

Fixpoint trimStart (s : jsstring) : jsstring :=
  match s with
  | c :: s' => if is_js_space c then trimStart s' else s
  | [] => []
  end.

Definition trimEnd (s : jsstring) : jsstring := rev (trimStart (rev s)).

Definition trim (s : jsstring) : jsstring := trimEnd (trimStart s).

(** ** JSON.parse

    The value a text parses to.  A number keeps the digits it was written
    with: nothing below computes with its numeric value.  An object keeps
    its members in the order of the text; a property read takes the last
    member with that key, as a repeated key overwrites the earlier one. *)

Inductive json :=
| JNull
| JBool (b : bool)
| JNumber (digits : jsstring)
| JString (s : jsstring)
| JArray (elements : list json)
| JObject (members : list (jsstring * json)).

Module Json.

Inductive token :=
| TLBrace | TRBrace | TLBracket | TRBracket | TComma | TColon
| TString (s : jsstring)
| TNumber (digits : jsstring)
| TTrue | TFalse | TNull.

(** Where the scanner stands inside a number: an optional minus sign, an
    integer part (a single zero, or digits starting with a non-zero one),
    an optional fraction (a dot and at least one digit) and an optional
    exponent (e or E, an optional sign, at least one digit). *)
Inductive num_state :=
| NMinus | NZero | NInt | NDot | NFrac | NExp | NExpSign | NExpDigits.

Definition num_accepting (n : num_state) : bool :=
  match n with
  | NZero | NInt | NFrac | NExpDigits => true
  | NMinus | NDot | NExp | NExpSign => false
  end.

Definition is_digit (c : code_unit) : bool := (48 <=? c) && (c <=? 57).

Definition num_step (n : num_state) (c : code_unit) : option num_state :=
  let exp_or_none := if (c =? 101) || (c =? 69) then Some NExp else None in
  match n with
  | NMinus =>
      if c =? 48 then Some NZero
      else if is_digit c then Some NInt else None
  | NZero => if c =? 46 then Some NDot else exp_or_none
  | NInt =>
      if is_digit c then Some NInt
      else if c =? 46 then Some NDot else exp_or_none
  | NDot => if is_digit c then Some NFrac else None
  | NFrac => if is_digit c then Some NFrac else exp_or_none
  | NExp =>
      if (c =? 43) || (c =? 45) then Some NExpSign
      else if is_digit c then Some NExpDigits else None
  | NExpSign => if is_digit c then Some NExpDigits else None
  | NExpDigits => if is_digit c then Some NExpDigits else None
  end.

Definition hex_value (c : code_unit) : option N :=
  if is_digit c then Some (c - 48)
  else if (97 <=? c) && (c <=? 102) then Some (c - 87)
  else if (65 <=? c) && (c <=? 70) then Some (c - 55)
  else None.

Inductive lex_mode :=
| LDefault
| LString (acc : jsstring)
| LEscape (acc : jsstring)
| LUnicode (acc : jsstring) (count : nat) (value : N)
| LNumber (n : num_state) (acc : jsstring)
| LLiteral (t : token) (rest : jsstring).

(** Accumulators hold the characters read so far, newest first. *)
Definition lex_default (c : code_unit) : option (lex_mode * list token) :=
  if (c =? 32) || (c =? 9) || (c =? 10) || (c =? 13) then Some (LDefault, [])
  else if c =? 123 then Some (LDefault, [TLBrace])
  else if c =? 125 then Some (LDefault, [TRBrace])
  else if c =? 91 then Some (LDefault, [TLBracket])
  else if c =? 93 then Some (LDefault, [TRBracket])
  else if c =? 44 then Some (LDefault, [TComma])
  else if c =? 58 then Some (LDefault, [TColon])
  else if c =? 34 then Some (LString [], [])
  else if c =? 45 then Some (LNumber NMinus [c], [])
  else if c =? 48 then Some (LNumber NZero [c], [])
  else if is_digit c then Some (LNumber NInt [c], [])
  else if c =? 116 then Some (LLiteral TTrue (lit "rue"), [])
  else if c =? 102 then Some (LLiteral TFalse (lit "alse"), [])
  else if c =? 110 then Some (LLiteral TNull (lit "ull"), [])
  else None.

Definition lex_escape (acc : jsstring) (c : code_unit) : option lex_mode :=
  if c =? 34 then Some (LString (34 :: acc))
  else if c =? 92 then Some (LString (92 :: acc))
  else if c =? 47 then Some (LString (47 :: acc))
  else if c =? 98 then Some (LString (8 :: acc))
  else if c =? 102 then Some (LString (12 :: acc))
  else if c =? 110 then Some (LString (10 :: acc))
  else if c =? 114 then Some (LString (13 :: acc))
  else if c =? 116 then Some (LString (9 :: acc))
  else if c =? 117 then Some (LUnicode acc 0 0)
  else None.

Definition lex_step (m : lex_mode) (c : code_unit)
  : option (lex_mode * list token) :=
  match m with
  | LDefault => lex_default c
  | LString acc =>
      if c =? 34 then Some (LDefault, [TString (rev acc)])
      else if c =? 92 then Some (LEscape acc, [])
      else if c <? 32 then None
      else Some (LString (c :: acc), [])
  | LEscape acc =>
      match lex_escape acc c with
      | Some m' => Some (m', [])
      | None => None
      end
  | LUnicode acc count value =>
      match hex_value c with
      | Some d =>
          let value' := value * 16 + d in
          match count with
          | 3%nat => Some (LString (value' :: acc), [])
          | _ => Some (LUnicode acc (S count) value', [])
          end
      | None => None
      end
  | LNumber n acc =>
      match num_step n c with
      | Some n' => Some (LNumber n' (c :: acc), [])
      | None =>
          if num_accepting n then
            match lex_default c with
            | Some (m', ts) => Some (m', TNumber (rev acc) :: ts)
            | None => None
            end
          else None
      end
  | LLiteral t rest =>
      match rest with
      | [] => None
      | [e] => if c =? e then Some (LDefault, [t]) else None
      | e :: rest' => if c =? e then Some (LLiteral t rest', []) else None
      end
  end.

Definition lex_end (m : lex_mode) : option (list token) :=
  match m with
  | LDefault => Some []
  | LNumber n acc => if num_accepting n then Some [TNumber (rev acc)] else None
  | _ => None
  end.

Fixpoint lex_from (m : lex_mode) (s : jsstring) : option (list token) :=
  match s with
  | [] => lex_end m
  | c :: s' =>
      match lex_step m c with
      | Some (m', ts) =>
          match lex_from m' s' with
          | Some rest => Some (ts ++ rest)
          | None => None
          end
      | None => None
      end
  end.

Definition lex (s : jsstring) : option (list token) := lex_from LDefault s.

(** The containers that are open around the value being read. *)
Inductive frame :=
| FArr (elems : list json)
| FObj (members : list (jsstring * json)) (key : jsstring).

Inductive mode :=
| MValue
| MFirstElem
| MAfterElem (elems : list json)
| MFirstKey
| MKey (members : list (jsstring * json))
| MColon (members : list (jsstring * json)) (key : jsstring)
| MAfterMember (members : list (jsstring * json))
| MDone (v : json).

Definition deliver (v : json) (st : list frame) : mode * list frame :=
  match st with
  | [] => (MDone v, [])
  | FArr es :: st' => (MAfterElem (v :: es), st')
  | FObj ms k :: st' => (MAfterMember ((k, v) :: ms), st')
  end.

Definition value_step (t : token) (st : list frame)
  : option (mode * list frame) :=
  match t with
  | TNull => Some (deliver JNull st)
  | TTrue => Some (deliver (JBool true) st)
  | TFalse => Some (deliver (JBool false) st)
  | TNumber d => Some (deliver (JNumber d) st)
  | TString s => Some (deliver (JString s) st)
  | TLBracket => Some (MFirstElem, st)
  | TLBrace => Some (MFirstKey, st)
  | TRBrace | TRBracket | TComma | TColon => None
  end.

Definition parse_step (c : mode * list frame) (t : token)
  : option (mode * list frame) :=
  let (m, st) := c in
  match m, t with
  | MValue, _ => value_step t st
  | MFirstElem, TRBracket => Some (deliver (JArray []) st)
  | MFirstElem, _ => value_step t (FArr [] :: st)
  | MAfterElem es, TComma => Some (MValue, FArr es :: st)
  | MAfterElem es, TRBracket => Some (deliver (JArray (rev es)) st)
  | MFirstKey, TRBrace => Some (deliver (JObject []) st)
  | MFirstKey, TString k => Some (MColon [] k, st)
  | MKey ms, TString k => Some (MColon ms k, st)
  | MColon ms k, TColon => Some (MValue, FObj ms k :: st)
  | MAfterMember ms, TComma => Some (MKey ms, st)
  | MAfterMember ms, TRBrace => Some (deliver (JObject (rev ms)) st)
  | _, _ => None
  end.

Fixpoint parse_from (c : mode * list frame) (ts : list token) : option json :=
  match ts with
  | [] => match c with (MDone v, []) => Some v | _ => None end
  | t :: ts' =>
      match parse_step c t with
      | Some c' => parse_from c' ts'
      | None => None
      end
  end.

Definition parse_tokens (ts : list token) : option json :=
  parse_from (MValue, []) ts.

End Json.

(** [JSON.parse text]: [None] stands for the [SyntaxError] it throws. *)
Definition JSON_parse (text : jsstring) : option json :=
  match Json.lex text with
  | Some ts => Json.parse_tokens ts
  | None => None
  end.

(** Reading property [k] of a parsed value; [None] is [undefined]. *)
Fixpoint assoc_last (k : jsstring) (ms : list (jsstring * json)) : option json :=
  match ms with
  | [] => None
  | (k', v) :: ms' =>
      match assoc_last k ms' with
      | Some v' => Some v'
      | None => if jsstring_eqb k k' then Some v else None
      end
  end.

Definition get_property (v : json) (k : jsstring) : option json :=
  match v with
  | JObject ms => assoc_last k ms
  | _ => None
  end.

(** The shape [{isValid: boolean, possibleVariations: string[]}]. *)
Definition is_JString (v : json) : bool :=
  match v with JString _ => true | _ => false end.

Definition is_ValidationResponse (v : json) : bool :=
  match get_property v (lit "isValid"),
        get_property v (lit "possibleVariations") with
  | Some (JBool _), Some (JArray l) => forallb is_JString l
  | _, _ => false
  end.

(** ** External services

    What is thrown or what a promise rejects with. *)
Inductive exn :=
| Error (message : jsstring)
| TypeError (message : jsstring)
| SyntaxError
| ServiceFailure (reason : jsstring).

Inductive Settled (A : Type) :=
| Fulfilled (a : A)
| Rejected (reason : exn).
Arguments Fulfilled {A} a.
Arguments Rejected {A} reason.

(** [top_p] is kept in hundredths: 95 stands for the literal 0.95. *)
Record TextGenParameters := mkTextGenParameters {
  max_length : N;
  do_sample : bool;
  top_k : N;
  top_p_percent : N;
  num_return_sequences : N
}.

Record TextGenRequest := mkTextGenRequest {
  tg_model : jsstring;
  inputs : jsstring;
  parameters : TextGenParameters
}.

Record HfResponse := mkHfResponse { generated_text : jsstring }.

Record ImageRequest := mkImageRequest {
  img_model : jsstring;
  img_prompt : jsstring;
  img_n : N;
  img_size : jsstring
}.

(** The answer of the image endpoint, [{data: [{url}]}]: [data] is an
    array of any length, and reading [url] on one of its images gives a
    string or [undefined]. *)
Record Image := mkImage { url : option jsstring }.
Record ImagesResponse := mkImagesResponse { created : N; data : list Image }.

Inductive logged_response :=
| TextResponse (r : HfResponse)
| ImageResponses (rs : list ImagesResponse).

(** The document handed to [aiGenerated.create]. *)
Record LogDoc := mkLogDoc {
  userId : jsstring;
  prompt : jsstring;
  response : logged_response
}.

(** Modelled from the spec: the stored log record
    [{userId, prompt, response, _id}] of the model file, which is not
    part of the sources; of the created record only [_id] is read, and
    [generateRecipe] returns it as a string. *)
Record Created := mkCreated { _id : jsstring }.

(** How every request of one run settles.  The image endpoint is asked
    once per recipe, so its answer depends on the rank of the request. *)
Record World := mkWorld {
  hf_textGeneration : TextGenRequest -> Settled HfResponse;
  openai_images_generate : nat -> ImageRequest -> Settled ImagesResponse;
  connectDB : Settled unit;
  aiGenerated_create : LogDoc -> Settled Created
}.

Inductive console_arg :=
| NoArg
| ExnArg (e : exn)
| TextArg (s : jsstring)
| ResponseArg (r : HfResponse).

Inductive event :=
| EvTextGeneration (req : TextGenRequest)
| EvImagesGenerate (req : ImageRequest)
| EvConnectDB
| EvCreate (doc : LogDoc)
| EvConsoleLog (msg : jsstring) (arg : console_arg)
| EvConsoleError (msg : jsstring) (arg : console_arg).

(** ** The monad of the asynchronous functions

    A program reads the world, appends to the trace of what it did, and
    either returns or throws. *)
Record State := mkState {
  trace : list event;
  images_issued : nat
}.

Definition initial : State := mkState [] 0.

Inductive completion (A : Type) :=
| Return (a : A)
| Throw (e : exn).
Arguments Return {A} a.
Arguments Throw {A} e.

Definition M (A : Type) : Type := World -> State -> State * completion A.

Definition ret {A} (a : A) : M A := fun _ s => (s, Return a).

Definition bind {A B} (m : M A) (k : A -> M B) : M B :=
  fun w s =>
    match m w s with
    | (s', Return a) => k a w s'
    | (s', Throw e) => (s', Throw e)
    end.

Definition throw {A} (e : exn) : M A := fun _ s => (s, Throw e).

Definition try_catch {A} (body : M A) (handler : exn -> M A) : M A :=
  fun w s =>
    match body w s with
    | (s', Return a) => (s', Return a)
    | (s', Throw e) => handler e w s'
    end.

Definition emit (e : event) : M unit :=
  fun _ s => (mkState (trace s ++ [e]) (images_issued s), Return tt).

Declare Scope js_scope.
Delimit Scope js_scope with js.
Notation "x <- m ;; k" := (bind m (fun x => k))
  (at level 100, m at next level, right associativity) : js_scope.
Notation "m ;;; k" := (bind m (fun _ => k))
  (at level 100, k at level 200, right associativity) : js_scope.
Local Open Scope js_scope.

(** [await p]: the value of a fulfilled promise, or its reason thrown. *)
Definition await {A} (p : Settled A) : M A :=
  match p with
  | Fulfilled a => ret a
  | Rejected e => throw e
  end.

(** [Promise.all]: fulfilled with every value in order when all are,
    rejected as soon as one is.  Which rejection wins a race is not
    modelled: the callers below discard the reason. *)
Fixpoint Promise_all {A} (ps : list (Settled A)) : Settled (list A) :=
  match ps with
  | [] => Fulfilled []
  | Rejected e :: _ => Rejected e
  | Fulfilled a :: ps' =>
      match Promise_all ps' with
      | Fulfilled l => Fulfilled (a :: l)
      | Rejected e => Rejected e
      end
  end.

(** [Array.prototype.map] with a callback that has effects. *)
Fixpoint mapM_from {A B} (f : A -> nat -> M B) (idx : nat) (l : list A)
  : M (list B) :=
  match l with
  | [] => ret []
  | a :: l' =>
      b <- f a idx ;;
      bs <- mapM_from f (S idx) l' ;;
      ret (b :: bs)
  end.

Definition mapM {A B} (f : A -> nat -> M B) (l : list A) : M (list B) :=
  mapM_from f 0 l.

Definition console_log (msg : jsstring) (arg : console_arg) : M unit :=
  emit (EvConsoleLog msg arg).
Definition console_error (msg : jsstring) (arg : console_arg) : M unit :=
  emit (EvConsoleError msg arg).

(** The calls into the SDKs.  Each one issues its request when it is
    called and hands back a promise. *)
Definition hf_textGeneration_call (req : TextGenRequest)
  : M (Settled HfResponse) :=
  fun w s =>
    (mkState (trace s ++ [EvTextGeneration req]) (images_issued s),
     Return (hf_textGeneration w req)).

Definition openai_images_generate_call (req : ImageRequest)
  : M (Settled ImagesResponse) :=
  fun w s =>
    (mkState (trace s ++ [EvImagesGenerate req]) (S (images_issued s)),
     Return (openai_images_generate w (images_issued s) req)).

Definition connectDB_call : M (Settled unit) :=
  fun w s =>
    (mkState (trace s ++ [EvConnectDB]) (images_issued s),
     Return (connectDB w)).

Definition aiGenerated_create_call (doc : LogDoc) : M (Settled Created) :=
  fun w s =>
    (mkState (trace s ++ [EvCreate doc]) (images_issued s),
     Return (aiGenerated_create w doc)).

(** ** Response logger *)

Definition saveOpenaiResponses (doc : LogDoc) : M (option jsstring) :=
  try_catch
    (p <- connectDB_call ;;
     _ <- await p ;;
     q <- aiGenerated_create_call
            (mkLogDoc (userId doc) (prompt doc) (response doc)) ;;
     created <- await q ;;
     ret (Some (_id created)))
    (fun error =>
       console_error (lit "Failed to save response to db:") (ExnArg error) ;;;
       ret None).

(** ** Inference client *)

Record ResponseType := mkResponseType {
  recipes : option jsstring;
  openaiPromptId : jsstring
}.

(** [_id || 'null-prompt-id']: [null] and the empty string are falsy. *)
Definition or_sentinel (id : option jsstring) : jsstring :=
  match id with
  | Some (c :: s) => c :: s
  | Some [] | None => lit "null-prompt-id"
  end.

Definition recipe_parameters : TextGenParameters :=
  mkTextGenParameters 1500 true 50 95 1.

Definition generateRecipe
    (ingredients : list Ingredient)
    (dietaryPreferences : list DietaryPreference)
    (userId : jsstring) : M ResponseType :=
  try_catch
    (let prompt := getRecipeGenerationPrompt ingredients dietaryPreferences in
     p <- hf_textGeneration_call
            (mkTextGenRequest (lit "EleutherAI/gpt-neo-2.7B") prompt
               recipe_parameters) ;;
     response <- await p ;;
     let generatedText := generated_text response in
     _id <- saveOpenaiResponses
              (mkLogDoc userId prompt (TextResponse response)) ;;
     ret (mkResponseType (Some generatedText) (or_sentinel _id)))
    (fun error =>
       console_error (lit "Failed to generate recipe:") (ExnArg error) ;;;
       throw (Error (lit "Failed to generate recipe"))).

Definition generateImage (prompt : jsstring) : M (Settled ImagesResponse) :=
  try_catch
    (response <- openai_images_generate_call
                   (mkImageRequest (lit "dall-e-3") prompt 1
                      (lit "1024x1024")) ;;
     ret response)
    (fun error => throw (Error (lit "Failed to generate image"))).

Record ImageWithName := mkImageWithName {
  imgLink : option jsstring;
  iw_name : jsstring
}.

Definition undefined_read (property : string) : exn :=
  TypeError (lit "Cannot read properties of undefined (reading '" ++
             lit property ++ lit "')").

Definition generateImages (recipes : list Recipe) (userId : jsstring)
  : M (list ImageWithName) :=
  try_catch
    (imagePromises <-
       mapM (fun recipe _ =>
               generateImage
                 (getImageGenerationPrompt (name recipe) (ingredients recipe)))
            recipes ;;
     images <- await (Promise_all imagePromises) ;;
     _ <- saveOpenaiResponses
            (mkLogDoc userId
               (lit "Image generation for recipe names " ++
                join (lit " ,") (map name recipes) ++
                lit " (note: not exact prompt)")
               (ImageResponses images)) ;;
     imagesWithNames <-
       mapM (fun imageResponse idx =>
               match data imageResponse !! 0%nat with
               | None => throw (undefined_read "url")
               | Some first =>
                   match recipes !! idx with
                   | None => throw (undefined_read "name")
                   | Some recipe =>
                       ret (mkImageWithName (url first) (name recipe))
                   end
               end)
            images ;;
     ret imagesWithNames)
    (fun error =>
       console_error (lit "Error generating image:") (ExnArg error) ;;;
       throw (Error (lit "Failed to generate image"))).

(** ** Ingredient validator *)

Definition validation_parameters : TextGenParameters :=
  mkTextGenParameters 200 false 50 95 1.

Definition JSON_parse_call (text : jsstring) : M json :=
  match JSON_parse text with
  | Some v => ret v
  | None => throw SyntaxError
  end.

(** A string is truthy unless it is empty. *)
Definition truthy (s : jsstring) : bool :=
  match s with [] => false | _ :: _ => true end.

(** The result is the parsed value as it is, [JNull] for [null]. *)
Definition validateIngredient (ingredientName userId : jsstring) : M json :=
  try_catch
    (let prompt := getIngredientValidationPrompt ingredientName in
     p <- hf_textGeneration_call
            (mkTextGenRequest (lit "EleutherAI/gpt-neo-2.7B") prompt
               validation_parameters) ;;
     response <- await p ;;
     console_log (lit "Raw response from Hugging Face:")
                 (ResponseArg response) ;;;
     let validationText := generated_text response in
     if truthy validationText then
       console_log (lit "Validation Text:") (TextArg validationText) ;;;
       try_catch
         (let trimmedText := trim validationText in
          jsonResponse <- JSON_parse_call trimmedText ;;
          _ <- saveOpenaiResponses
                 (mkLogDoc userId prompt (TextResponse response)) ;;
          ret jsonResponse)
         (fun jsonError =>
            console_error (lit "Failed to parse JSON response:")
                          (ExnArg jsonError) ;;;
            ret JNull)
     else
       console_error (lit "No response text received from Hugging Face")
                     NoArg ;;;
       ret JNull)
    (fun error =>
       console_error (lit "Failed to validate ingredient:") (ExnArg error) ;;;
       throw (Error (lit "Failed to validate ingredient"))).

(** Running a function of the source as one call from a fresh trace. *)
Definition run {A} (m : M A) (w : World) : State * completion A :=
  m w initial.
Definition result {A} (m : M A) (w : World) : completion A := snd (run m w).
Definition events {A} (m : M A) (w : World) : list event :=
  trace (fst (run m w)).

(** ** Authentication callbacks

    The session callback writes into the session object it is given and
    returns that same object, so sessions live in a store and are passed
    by reference. *)
Module Auth.

Record SessionUser := mkSessionUser {
  su_name : option jsstring;
  su_email : option jsstring;
  su_image : option jsstring;
  su_id : option jsstring
}.

Record Session := mkSession {
  user : SessionUser;
  expires : jsstring
}.

Record AdapterUser := mkAdapterUser {
  au_id : jsstring;
  au_name : option jsstring;
  au_email : option jsstring;
  au_image : option jsstring
}.

Record JWT := mkJWT { sub : option jsstring }.

Definition ref := positive.

(** [session.user.id = user.id]. *)
Definition assign_user_id (id : jsstring) (s : Session) : Session :=
  mkSession
    (mkSessionUser (su_name (user s)) (su_email (user s)) (su_image (user s))
       (Some id))
    (expires s).

Definition session (store : gmap ref Session)
    (session : ref) (token : JWT) (user : AdapterUser)
  : gmap ref Session * ref :=
  (alter (assign_user_id (au_id user)) session store, session).

Definition redirect (url baseUrl : jsstring) : jsstring := baseUrl.

End Auth.

(** ** What a run is expected to do, in closed form *)

Definition recipe_request
    (ingredients : list Ingredient) (dietaryPreferences : list DietaryPreference)
  : TextGenRequest :=
  mkTextGenRequest (lit "EleutherAI/gpt-neo-2.7B")
    (getRecipeGenerationPrompt ingredients dietaryPreferences)
    recipe_parameters.

Definition validation_request (ingredientName : jsstring) : TextGenRequest :=
  mkTextGenRequest (lit "EleutherAI/gpt-neo-2.7B")
    (getIngredientValidationPrompt ingredientName)
    validation_parameters.

Definition image_request (recipe : Recipe) : ImageRequest :=
  mkImageRequest (lit "dall-e-3")
    (getImageGenerationPrompt (name recipe) (ingredients recipe)) 1
    (lit "1024x1024").

(** How the request for each recipe settles, the first one having rank
    [k]. *)
Fixpoint image_outcomes (w : World) (k : nat) (recipes : list Recipe)
  : list (Settled ImagesResponse) :=
  match recipes with
  | [] => []
  | recipe :: rest =>
      openai_images_generate w k (image_request recipe) ::
      image_outcomes w (S k) rest
  end.

Definition images_log_doc (recipes : list Recipe) (userId : jsstring)
    (images : list ImagesResponse) : LogDoc :=
  mkLogDoc userId
    (lit "Image generation for recipe names " ++
     join (lit " ,") (map name recipes) ++
     lit " (note: not exact prompt)")
    (ImageResponses images).

(** The id a log write yields and the events it leaves. *)
Definition save_id (w : World) (doc : LogDoc) : option jsstring :=
  match connectDB w with
  | Rejected _ => None
  | Fulfilled _ =>
      match aiGenerated_create w doc with
      | Rejected _ => None
      | Fulfilled created => Some (_id created)
      end
  end.

Definition save_events (w : World) (doc : LogDoc) : list event :=
  match connectDB w with
  | Rejected e =>
      [EvConnectDB;
       EvConsoleError (lit "Failed to save response to db:") (ExnArg e)]
  | Fulfilled _ =>
      match aiGenerated_create w doc with
      | Rejected e =>
          [EvConnectDB; EvCreate doc;
           EvConsoleError (lit "Failed to save response to db:") (ExnArg e)]
      | Fulfilled _ => [EvConnectDB; EvCreate doc]
      end
  end.

(** The [{imgLink, name}] pair of a response that carries an image. *)
Definition first_url (image : ImagesResponse) : option jsstring :=
  match data image with
  | [] => None
  | first :: _ => url first
  end.

Definition with_name (image : ImagesResponse) (recipe : Recipe) : ImageWithName :=
  mkImageWithName (first_url image) (name recipe).

(** The second [map] of [generateImages] touches nothing outside; this is
    what it returns or throws, [idx] being the index of the first
    response. *)
Fixpoint name_images (recipes : list Recipe) (idx : nat)
    (images : list ImagesResponse) : completion (list ImageWithName) :=
  match images with
  | [] => Return []
  | imageResponse :: rest =>
      match data imageResponse !! 0%nat with
      | None => Throw (undefined_read "url")
      | Some first =>
          match recipes !! idx with
          | None => Throw (undefined_read "name")
          | Some recipe =>
              match name_images recipes (S idx) rest with
              | Return l => Return (mkImageWithName (url first) (name recipe) :: l)
              | Throw e => Throw e
              end
          end
      end
  end.

Definition has_image (image : ImagesResponse) : Prop := data image <> [].

Definition image_error : exn := Error (lit "Failed to generate image").

Definition recipe_error : exn := Error (lit "Failed to generate recipe").
Definition validation_error : exn := Error (lit "Failed to validate ingredient").

Definition recipe_log_doc
    (ingredients : list Ingredient) (dietaryPreferences : list DietaryPreference)
    (userId : jsstring) (r : HfResponse) : LogDoc :=
  mkLogDoc userId (getRecipeGenerationPrompt ingredients dietaryPreferences)
    (TextResponse r).

Definition validation_log_doc (ingredientName userId : jsstring) (r : HfResponse)
  : LogDoc :=
  mkLogDoc userId (getIngredientValidationPrompt ingredientName) (TextResponse r).

(** A reply [text] comes back from [validateIngredient] as the value it
    parses to, although that value is neither [null] nor of the shape
    [{isValid, possibleVariations}]. *)
Definition returned_unchecked (text : jsstring) : Prop :=
  exists v,
    JSON_parse (trim text) = Some v /\
    v <> JNull /\
    is_ValidationResponse v = false /\
    forall w ingredientName userId,
      hf_textGeneration w (validation_request ingredientName) =
        Fulfilled (mkHfResponse text) ->
      result (validateIngredient ingredientName userId) w = Return v.

(** Observations on a trace. *)
Definition image_requests (tr : list event) : list ImageRequest :=
  omap (fun e => match e with EvImagesGenerate r => Some r | _ => None end) tr.

Definition log_write_attempted (tr : list event) : bool :=
  existsb (fun e => match e with EvConnectDB => true | _ => false end) tr.

(** Two worlds whose inference endpoints answer alike. *)
Definition same_inference (w w' : World) : Prop :=
  (forall req, hf_textGeneration w req = hf_textGeneration w' req) /\
  (forall k req, openai_images_generate w k req = openai_images_generate w' k req).

(** The log write fails: the store cannot be reached or refuses every
    document. *)
Definition log_write_fails (w : World) : Prop :=
  (exists e, connectDB w = Rejected e) \/
  (forall doc, exists e, aiGenerated_create w doc = Rejected e).

(** ** Sample data *)
Module Sample.

Definition no_info : AdditionalInformation := mkAdditionalInformation [] [] [] [].

Definition egg : Ingredient := mkIngredient (lit "egg") (lit "2").
Definition omelette : Recipe :=
  mkRecipe (lit "Omelette") [egg] [lit "Beat"; lit "Fry"] [] no_info.
Definition toast : Recipe :=
  mkRecipe (lit "Toast") [mkIngredient (lit "bread") (lit "2 slices")]
    [lit "Toast"] [] no_info.

Definition u1 : jsstring := lit "u1".

Definition one_image (link : string) : ImagesResponse :=
  mkImagesResponse 0 [mkImage (Some (lit link))].
Definition no_image : ImagesResponse := mkImagesResponse 0 [].

(** A store that accepts every document under the id [doc-1]. *)
Definition store_up : LogDoc -> Settled Created :=
  fun _ => Fulfilled (mkCreated (lit "doc-1")).
Definition store_down : LogDoc -> Settled Created :=
  fun _ => Rejected (ServiceFailure (lit "write refused")).

(** Every endpoint answers; the text endpoint answers [text]. *)
Definition answering (text : jsstring) : World :=
  mkWorld (fun _ => Fulfilled (mkHfResponse text))
          (fun k _ => Fulfilled (one_image "https://img/1"))
          (Fulfilled tt) store_up.

(** The same endpoints with a document store that cannot be reached. *)
Definition unlogged (text : jsstring) : World :=
  mkWorld (fun _ => Fulfilled (mkHfResponse text))
          (fun k _ => Fulfilled (one_image "https://img/1"))
          (Rejected (ServiceFailure (lit "no connection"))) store_up.

(** No inference endpoint can be reached. *)
Definition unreachable : World :=
  mkWorld (fun _ => Rejected (ServiceFailure (lit "network")))
          (fun k _ => Rejected (ServiceFailure (lit "network")))
          (Fulfilled tt) store_up.

(** The image endpoint answers every request with an empty [data]. *)
Definition empty_data : World :=
  mkWorld (fun _ => Fulfilled (mkHfResponse []))
          (fun k _ => Fulfilled no_image)
          (Fulfilled tt) store_up.

(** The second image request is answered with an empty [data]. *)
Definition second_empty : World :=
  mkWorld (fun _ => Fulfilled (mkHfResponse []))
          (fun k _ => Fulfilled (if (k =? 1)%nat then no_image
                                 else one_image "https://img/1"))
          (Fulfilled tt) store_up.

(** The second image request is rejected. *)
Definition second_rejected : World :=
  mkWorld (fun _ => Fulfilled (mkHfResponse []))
          (fun k _ => if (k =? 1)%nat
                      then Rejected (ServiceFailure (lit "quota"))
                      else Fulfilled (one_image "https://img/1"))
          (Fulfilled tt) store_up.

Definition valid_reply : jsstring :=
  tpl " {'isValid': true, 'possibleVariations': ['silken tofu', 'tempeh']} ".

Definition valid_value : json :=
  JObject [(lit "isValid", JBool true);
           (lit "possibleVariations",
            JArray [JString (lit "silken tofu"); JString (lit "tempeh")])].

Definition a_session : Auth.Session :=
  Auth.mkSession
    (Auth.mkSessionUser (Some (lit "Ada")) (Some (lit "ada@example.org")) None None)
    (lit "2026-01-01T00:00:00.000Z").
Definition a_user : Auth.AdapterUser :=
  Auth.mkAdapterUser (lit "user-7") (Some (lit "Ada")) (Some (lit "ada@example.org")) None.
Definition a_store : gmap Auth.ref Auth.Session := {[ 1%positive := a_session ]}.

End Sample.

(** ** Further observations on a run *)

Definition is_create (e : event) : bool :=
  match e with EvCreate _ => true | _ => false end.
Definition is_connect (e : event) : bool :=
  match e with EvConnectDB => true | _ => false end.
Definition is_text_request (e : event) : bool :=
  match e with EvTextGeneration _ => true | _ => false end.
Definition is_inference (e : event) : bool :=
  match e with
  | EvTextGeneration _ | EvImagesGenerate _ => true
  | _ => false
  end.

Definition count_events (p : event -> bool) (tr : list event) : nat :=
  length (filter (fun e => p e = true) tr).

(** What is sent to the inference endpoints during a run. *)
Definition inference_events (tr : list event) : list event :=
  filter (fun e => is_inference e = true) tr.

(** The [recipes] of what [generateRecipe] returned. *)
Definition recipes_of (c : completion ResponseType)
  : completion (option jsstring) :=
  match c with
  | Return r => Return (recipes r)
  | Throw e => Throw e
  end.

Definition all_space (s : jsstring) : bool := forallb is_js_space s.

(** The value [JSON.parse] gives back for a serialised ingredient list. *)
Definition ingredient_json (i : Ingredient) : json :=
  JObject [(lit "name", JString (ing_name i));
           (lit "quantity", JString (ing_quantity i))].

Definition ingredients_json (l : list Ingredient) : json :=
  JArray (map ingredient_json l).

(** Scanning a piece of text: the mode the scanner is left in and the
    tokens it has produced, [None] when a character is refused. *)
Fixpoint lex_run (m : Json.lex_mode) (s : jsstring)
  : option (Json.lex_mode * list Json.token) :=
  match s with
  | [] => Some (m, [])
  | c :: s' =>
      match Json.lex_step m c with
      | Some (m', ts) =>
          match lex_run m' s' with
          | Some (m'', rest) => Some (m'', ts ++ rest)
          | None => None
          end
      | None => None
      end
  end.

Definition ingredient_tokens (i : Ingredient) : list Json.token :=
  [Json.TLBrace; Json.TString (lit "name"); Json.TColon;
   Json.TString (ing_name i); Json.TComma;
   Json.TString (lit "quantity"); Json.TColon;
   Json.TString (ing_quantity i); Json.TRBrace].

Fixpoint elements_tokens (l : list Ingredient) : list Json.token :=
  match l with
  | [] => []
  | [i] => ingredient_tokens i
  | i :: rest => ingredient_tokens i ++ Json.TComma :: elements_tokens rest
  end.

Module Sample2.

Definition padded_reply : jsstring :=
  [65279; 160] ++ Sample.valid_reply ++ [11; 12; 8232].

Definition ada : Auth.AdapterUser :=
  Auth.mkAdapterUser (lit "user-7") (Some (lit "Ada")) None None.
Definition bob : Auth.AdapterUser :=
  Auth.mkAdapterUser (lit "user-9") (Some (lit "Bob")) None None.

End Sample2.

Ltac run_unfold :=
  unfold run, result, events, bind, ret, throw, try_catch, await, emit,
    console_log, console_error, hf_textGeneration_call,
    openai_images_generate_call, connectDB_call, aiGenerated_create_call,
    JSON_parse_call in *.

(** * Properties *)

Local Close Scope N_scope.

(** ** Strings *)

Lemma starts_with_spec pat s :
  starts_with pat s = true <-> exists rest, s = pat ++ rest.
Proof.
  revert s; induction pat as [|p pat IH]; intros s; simpl.
  - split; [intros _; exists s; reflexivity | reflexivity].
  - destruct s as [|c s].
    + split; [discriminate | intros [rest H]; discriminate].
    + rewrite andb_true_iff, N.eqb_eq, IH. split.
      * intros [-> [rest ->]]. exists rest. reflexivity.
      * intros [rest H]. injection H as -> ->. eauto.
Qed.

Lemma includes_spec s pat :
  includes s pat = true <-> exists before after, s = before ++ pat ++ after.
Proof.
  induction s as [|c s IH].
  - simpl. rewrite orb_false_r, starts_with_spec. split.
    + intros [rest H]. exists [], rest. exact H.
    + intros [before [after H]].
      destruct before; [exists after; exact H | discriminate].
  - cbn [includes]. rewrite orb_true_iff, starts_with_spec, IH. split.
    + intros [[rest H] | [before [after H]]].
      * exists [], rest. exact H.
      * exists (c :: before), after. rewrite H. reflexivity.
    + intros [before [after H]]. destruct before as [|b before].
      * left. exists after. exact H.
      * right. injection H as _ H. eauto.
Qed.

(** ** Prompt builder *)

(** C5: the three prompt builders are functions of their arguments alone:
    two calls with equal inputs return identical strings, unit by unit. *)
Theorem prompt_builders_deterministic
    (ingredients1 ingredients2 : list Ingredient)
    (preferences1 preferences2 : list DietaryPreference)
    (recipeName1 recipeName2 ingredientName1 ingredientName2 : jsstring) :
  ingredients1 = ingredients2 ->
  preferences1 = preferences2 ->
  recipeName1 = recipeName2 ->
  ingredientName1 = ingredientName2 ->
  getRecipeGenerationPrompt ingredients1 preferences1 =
    getRecipeGenerationPrompt ingredients2 preferences2 /\
  getImageGenerationPrompt recipeName1 ingredients1 =
    getImageGenerationPrompt recipeName2 ingredients2 /\
  getIngredientValidationPrompt ingredientName1 =
    getIngredientValidationPrompt ingredientName2.
Proof. intros -> -> -> ->. repeat split. Qed.

Lemma prompt_builders_deterministic_witness :
  getRecipeGenerationPrompt [Sample.egg] [] =
    getRecipeGenerationPrompt [mkIngredient (lit "egg") (lit "2")] [] /\
  getImageGenerationPrompt (lit "Omelette") [Sample.egg] =
    getImageGenerationPrompt (lit "Omelette") [mkIngredient (lit "egg") (lit "2")] /\
  getIngredientValidationPrompt (lit "tofu") =
    getIngredientValidationPrompt (lit "tofu").
Proof.
  apply (prompt_builders_deterministic
           [Sample.egg] [mkIngredient (lit "egg") (lit "2")] [] []
           (lit "Omelette") (lit "Omelette") (lit "tofu") (lit "tofu"));
    reflexivity.
Defined.

(** C7: the validation prompt for the name tofu contains the text tofu and
    the text isValid (also with its double quotes around it). *)
Theorem validation_prompt_tofu :
  let prompt := getIngredientValidationPrompt (lit "tofu") in
  (exists before after, prompt = before ++ lit "tofu" ++ after) /\
  (exists before after, prompt = before ++ lit "isValid" ++ after) /\
  (exists before after, prompt = before ++ tpl "'isValid'" ++ after).
Proof.
  cbv zeta. repeat split; apply includes_spec; vm_compute; reflexivity.
Qed.

(** ** Running the monad *)

Lemma bind_run {A B} (m : M A) (k : A -> M B) w s s' a :
  m w s = (s', Return a) -> bind m k w s = k a w s'.
Proof. intros H. unfold bind. rewrite H. reflexivity. Qed.

Lemma bind_throw {A B} (m : M A) (k : A -> M B) w s s' e :
  m w s = (s', Throw e) -> bind m k w s = (s', Throw e).
Proof. intros H. unfold bind. rewrite H. reflexivity. Qed.

(** The logger always returns: an id when the write went through,
    [null] otherwise. *)
Lemma saveOpenaiResponses_run doc w s :
  saveOpenaiResponses doc w s =
    (mkState (trace s ++ save_events w doc) (images_issued s),
     Return (save_id w doc)).
Proof.
  destruct doc as [u p r].
  unfold saveOpenaiResponses, save_events, save_id. run_unfold. simpl.
  destruct (connectDB w) as [[]|e]; simpl.
  - destruct (aiGenerated_create w _) as [c|e]; simpl;
      rewrite <- ?app_assoc; reflexivity.
  - rewrite <- app_assoc. reflexivity.
Qed.

Lemma save_id_fails w doc : log_write_fails w -> save_id w doc = None.
Proof.
  unfold save_id. intros [[e H] | H].
  - rewrite H. reflexivity.
  - destruct (H doc) as [e He]. rewrite He.
    destruct (connectDB w); reflexivity.
Qed.

Lemma save_events_attempt w doc :
  log_write_attempted (save_events w doc) = true.
Proof.
  unfold save_events.
  destruct (connectDB w); [destruct (aiGenerated_create w doc) |]; reflexivity.
Qed.

Lemma save_events_create w doc u :
  connectDB w = Fulfilled u -> In (EvCreate doc) (save_events w doc).
Proof.
  unfold save_events. intros ->.
  destruct (aiGenerated_create w doc); simpl; auto.
Qed.

Lemma save_events_no_image_request w doc :
  image_requests (save_events w doc) = [].
Proof.
  unfold save_events.
  destruct (connectDB w); [destruct (aiGenerated_create w doc) |]; reflexivity.
Qed.

Lemma or_sentinel_nonempty id : or_sentinel id <> [].
Proof. destruct id as [[|c s]|]; discriminate. Qed.

(** ** Promises *)

Lemma Promise_all_fulfilled {A} (ps : list (Settled A)) l :
  Promise_all ps = Fulfilled l <-> ps = map Fulfilled l.
Proof.
  revert l; induction ps as [|p ps IH]; intros l; simpl.
  - split.
    + intros H. injection H as <-. reflexivity.
    + destruct l; [reflexivity | discriminate].
  - destruct p as [a|e].
    + destruct (Promise_all ps) as [l0|e] eqn:E.
      * split.
        -- intros H. injection H as <-. simpl. f_equal. apply IH. reflexivity.
        -- destruct l as [|a' l]; [discriminate |]. simpl.
           intros H. injection H as -> H. apply IH in H.
           injection H as ->. reflexivity.
      * split; [discriminate |].
        destruct l as [|a' l]; [discriminate |]. simpl.
        intros H. injection H as _ H. apply IH in H. discriminate.
    + split; [discriminate |]. destruct l; discriminate.
Qed.

Lemma Promise_all_rejected {A} (ps : list (Settled A)) k e :
  ps !! k = Some (Rejected e) -> exists e', Promise_all ps = Rejected e'.
Proof.
  revert k; induction ps as [|p ps IH]; intros k H.
  - destruct k; discriminate.
  - destruct k as [|k]; simpl in *.
    + injection H as ->. eauto.
    + destruct p; [| eauto].
      destruct (IH _ H) as [e' ->]. eauto.
Qed.

Lemma image_outcomes_length w k recipes :
  length (image_outcomes w k recipes) = length recipes.
Proof.
  revert k; induction recipes as [|r rs IH]; intros k; simpl;
    [reflexivity | rewrite IH; reflexivity].
Qed.

Lemma image_outcomes_lookup w k recipes i recipe :
  recipes !! i = Some recipe ->
  image_outcomes w k recipes !! i =
    Some (openai_images_generate w (k + i) (image_request recipe)).
Proof.
  revert k i; induction recipes as [|r rs IH]; intros k i H.
  - destruct i; discriminate.
  - destruct i as [|i]; simpl in *.
    + injection H as ->. rewrite Nat.add_0_r. reflexivity.
    + rewrite (IH (S k) i H). rewrite Nat.add_succ_r. reflexivity.
Qed.

Lemma all_fulfilled_length w recipes images :
  Promise_all (image_outcomes w 0 recipes) = Fulfilled images ->
  length images = length recipes.
Proof.
  intros H. apply Promise_all_fulfilled in H.
  rewrite <- (image_outcomes_length w 0 recipes), H, length_map. reflexivity.
Qed.

(** ** generateImages, step by step *)

(** The first [map]: one request per recipe, each issued whatever became
    of the ones before it. *)
Lemma issue_requests_run w recipes : forall idx s,
  mapM_from
    (fun recipe (_ : nat) =>
       generateImage (getImageGenerationPrompt (name recipe) (ingredients recipe)))
    idx recipes w s =
  (mkState (trace s ++ map (fun r => EvImagesGenerate (image_request r)) recipes)
           (images_issued s + length recipes),
   Return (image_outcomes w (images_issued s) recipes)).
Proof.
  induction recipes as [|r rs IH]; intros idx s; simpl.
  - unfold ret. rewrite app_nil_r, Nat.add_0_r. destruct s; reflexivity.
  - erewrite bind_run; [| unfold generateImage; run_unfold; reflexivity].
    erewrite bind_run; [| apply IH].
    unfold ret. cbn [trace images_issued].
    rewrite <- app_assoc, Nat.add_succ_r. reflexivity.
Qed.

(** The second [map] leaves the state as it is. *)
Lemma name_images_run (recipes : list Recipe) w images : forall idx s,
  mapM_from
    (fun imageResponse idx =>
       match data imageResponse !! 0%nat with
       | None => throw (undefined_read "url")
       | Some first =>
           match recipes !! idx with
           | None => throw (undefined_read "name")
           | Some recipe => ret (mkImageWithName (url first) (name recipe))
           end
       end)
    idx images w s =
  (s, name_images recipes idx images).
Proof.
  induction images as [|i rest IH]; intros idx s; simpl; [reflexivity |].
  unfold bind at 1.
  destruct (data i !! 0%nat) as [first|]; [| reflexivity].
  destruct (recipes !! idx) as [recipe|]; [| reflexivity].
  unfold ret at 1. unfold bind at 1. rewrite IH.
  destruct (name_images recipes (S idx) rest); reflexivity.
Qed.

Lemma name_images_all (recipes : list Recipe) images : forall idx,
  Forall has_image images ->
  idx + length images <= length recipes ->
  name_images recipes idx images =
    Return (zip_with with_name images (drop idx recipes)).
Proof.
  induction images as [|i rest IH]; intros idx Hall Hlen; simpl in *.
  - reflexivity.
  - inversion Hall as [|? ? Hi Hrest]; subst.
    unfold has_image in Hi.
    destruct (lookup_lt_is_Some_2 recipes idx) as [recipe Hr]; [lia |].
    rewrite (drop_S _ _ _ Hr), Hr. simpl.
    rewrite IH by (auto; lia).
    unfold with_name at 2, first_url.
    destruct (data i) as [|first ?]; [congruence | reflexivity].
Qed.

Lemma name_images_returns (recipes : list Recipe) images : forall idx l,
  name_images recipes idx images = Return l -> Forall has_image images.
Proof.
  induction images as [|i rest IH]; intros idx l H; simpl in *.
  - constructor.
  - destruct (data i) as [|first ?] eqn:Hd; simpl in H; [discriminate |].
    destruct (recipes !! idx); [| discriminate].
    destruct (name_images recipes (S idx) rest) as [l'|] eqn:E; [| discriminate].
    constructor; [unfold has_image; congruence | eauto].
Qed.

Lemma name_images_missing (recipes : list Recipe) images idx :
  Exists (fun image => data image = []) images ->
  exists e, name_images recipes idx images = Throw e.
Proof.
  intros Hex.
  destruct (name_images recipes idx images) as [l|e] eqn:E; [| eauto].
  apply name_images_returns in E.
  apply Exists_exists in Hex as [image [Hin Hd]].
  rewrite Forall_forall in E. destruct (E image Hin Hd).
Qed.

(** The whole run of [generateImages] in closed form. *)
Lemma generateImages_run w recipes userId :
  run (generateImages recipes userId) w =
    let requests := map (fun r => EvImagesGenerate (image_request r)) recipes in
    let report e :=
      [EvConsoleError (lit "Error generating image:") (ExnArg e)] in
    match Promise_all (image_outcomes w 0 recipes) with
    | Rejected e =>
        (mkState (requests ++ report e) (length recipes), Throw image_error)
    | Fulfilled images =>
        let logged :=
          requests ++ save_events w (images_log_doc recipes userId images) in
        match name_images recipes 0 images with
        | Return l => (mkState logged (length recipes), Return l)
        | Throw e =>
            (mkState (logged ++ report e) (length recipes), Throw image_error)
        end
    end.
Proof.
  unfold run, generateImages, mapM, try_catch.
  erewrite bind_run; [| apply issue_requests_run].
  cbn [initial trace images_issued app Nat.add].
  destruct (Promise_all (image_outcomes w 0 recipes)) as [images|e].
  - erewrite bind_run; [| reflexivity].
    erewrite bind_run; [| apply saveOpenaiResponses_run].
    cbn [trace images_issued].
    unfold bind at 1. rewrite name_images_run.
    fold (images_log_doc recipes userId images).
    destruct (name_images recipes 0 images); reflexivity.
  - erewrite bind_throw; [| reflexivity]. reflexivity.
Qed.

Lemma image_requests_app tr1 tr2 :
  image_requests (tr1 ++ tr2) = image_requests tr1 ++ image_requests tr2.
Proof. apply omap_app. Qed.

Lemma image_requests_issued recipes :
  image_requests (map (fun r => EvImagesGenerate (image_request r)) recipes) =
    map image_request recipes.
Proof.
  induction recipes as [|r rs IH]; [reflexivity |].
  cbn. f_equal. exact IH.
Qed.

Lemma generateImages_requests w recipes userId :
  image_requests (events (generateImages recipes userId) w) =
    map image_request recipes.
Proof.
  unfold events. rewrite generateImages_run. cbv zeta.
  destruct (Promise_all (image_outcomes w 0 recipes)) as [images|e].
  - destruct (name_images recipes 0 images); cbn [fst trace];
      rewrite ?image_requests_app, image_requests_issued,
        save_events_no_image_request, ?app_nil_r; reflexivity.
  - cbn [fst trace]. rewrite image_requests_app, image_requests_issued.
    apply app_nil_r.
Qed.

Lemma generateImages_all_with_image w recipes userId images :
  image_outcomes w 0 recipes = map Fulfilled images ->
  Forall has_image images ->
  result (generateImages recipes userId) w =
    Return (zip_with with_name images recipes).
Proof.
  intros Hok Hall. unfold result. rewrite generateImages_run. cbv zeta.
  assert (Hp : Promise_all (image_outcomes w 0 recipes) = Fulfilled images)
    by (apply Promise_all_fulfilled; exact Hok).
  rewrite Hp, (name_images_all recipes images 0 Hall).
  - reflexivity.
  - rewrite (all_fulfilled_length _ _ _ Hp). simpl. lia.
Qed.

Lemma generateImages_some_without_image w recipes userId images :
  image_outcomes w 0 recipes = map Fulfilled images ->
  Exists (fun image => data image = []) images ->
  result (generateImages recipes userId) w = Throw image_error.
Proof.
  intros Hok Hex. unfold result. rewrite generateImages_run. cbv zeta.
  apply Promise_all_fulfilled in Hok. rewrite Hok.
  destruct (name_images_missing recipes images 0 Hex) as [e ->]. reflexivity.
Qed.

Lemma generateImages_one_rejected w recipes userId i recipe e :
  recipes !! i = Some recipe ->
  openai_images_generate w i (image_request recipe) = Rejected e ->
  result (generateImages recipes userId) w = Throw image_error.
Proof.
  intros Hi Hrej. unfold result. rewrite generateImages_run. cbv zeta.
  pose proof (image_outcomes_lookup w 0 recipes i recipe Hi) as Hl.
  simpl in Hl. rewrite Hrej in Hl.
  destruct (Promise_all_rejected _ _ _ Hl) as [e' ->]. reflexivity.
Qed.

Lemma zip_with_names images : forall recipes,
  length images = length recipes ->
  map iw_name (zip_with with_name images recipes) = map name recipes.
Proof.
  induction images as [|i rest IH]; intros [|r rs] Hlen;
    try discriminate; [reflexivity |].
  simpl. f_equal. apply IH. simpl in Hlen. lia.
Qed.

Lemma zip_with_links images : forall recipes,
  length images = length recipes ->
  map imgLink (zip_with with_name images recipes) = map first_url images.
Proof.
  induction images as [|i rest IH]; intros [|r rs] Hlen;
    try discriminate; [reflexivity |].
  simpl. f_equal. apply IH. simpl in Hlen. lia.
Qed.

Lemma fulfilled_length w recipes images :
  image_outcomes w 0 recipes = map Fulfilled images ->
  length images = length recipes.
Proof.
  intros H. apply all_fulfilled_length with (w := w).
  apply Promise_all_fulfilled. exact H.
Qed.

(** ** Image generation *)

(** C1, as the code has it: [generateImages] issues one image request per
    recipe, in order, each built from that recipe's name and ingredients.
    When all of them are fulfilled and every response carries at least one
    image, it returns as many pairs as recipes, the i-th with the name of
    the i-th recipe.  When one request is rejected the call throws the
    error [Failed to generate image] and returns nothing. *)
Theorem generateImages_batch w recipes userId :
  image_requests (events (generateImages recipes userId) w) =
    map image_request recipes /\
  (forall images,
     image_outcomes w 0 recipes = map Fulfilled images ->
     Forall has_image images ->
     exists pairs,
       result (generateImages recipes userId) w = Return pairs /\
       length pairs = length recipes /\
       map iw_name pairs = map name recipes) /\
  (forall i recipe e,
     recipes !! i = Some recipe ->
     openai_images_generate w i (image_request recipe) = Rejected e ->
     result (generateImages recipes userId) w = Throw image_error).
Proof.
  split; [apply generateImages_requests | split].
  - intros images Hok Hall.
    exists (zip_with with_name images recipes).
    pose proof (fulfilled_length _ _ _ Hok) as Hlen.
    split; [apply generateImages_all_with_image; assumption | split].
    + rewrite <- (length_map iw_name), zip_with_names, length_map by exact Hlen.
      reflexivity.
    + apply zip_with_names, Hlen.
  - apply generateImages_one_rejected.
Qed.

Lemma generateImages_batch_witness :
  (exists pairs,
     result (generateImages [Sample.omelette; Sample.toast] Sample.u1)
            (Sample.answering []) = Return pairs /\
     length pairs = 2 /\
     map iw_name pairs = [lit "Omelette"; lit "Toast"]) /\
  result (generateImages [Sample.omelette; Sample.toast] Sample.u1)
         Sample.second_rejected = Throw image_error.
Proof.
  split.
  - destruct (generateImages_batch (Sample.answering [])
                [Sample.omelette; Sample.toast] Sample.u1) as (_ & H & _).
    apply (H [Sample.one_image "https://img/1"; Sample.one_image "https://img/1"]).
    + reflexivity.
    + repeat constructor; discriminate.
  - destruct (generateImages_batch Sample.second_rejected
                [Sample.omelette; Sample.toast] Sample.u1) as (_ & _ & H).
    apply (H 1 Sample.toast (ServiceFailure (lit "quota"))); reflexivity.
Defined.

(** C1 as stated fails: the single request is fulfilled, with a response
    whose [data] is empty, and the call throws instead of returning one
    pair. *)
Lemma generateImages_fulfilled_yet_throws :
  image_outcomes Sample.empty_data 0 [Sample.omelette] =
    map Fulfilled [Sample.no_image] /\
  result (generateImages [Sample.omelette] Sample.u1) Sample.empty_data =
    Throw image_error.
Proof. split; reflexivity. Qed.

(** C10, as the code has it: when every request is fulfilled but some
    response has an empty [data], reading [data[0].url] throws and the call
    ends with the error [Failed to generate image].  When every response
    carries an image the call returns one pair per recipe whose [imgLink]
    is the [url] of the first image of its response, and the call returns
    in no other case. *)
Theorem generateImages_first_image w recipes userId images :
  image_outcomes w 0 recipes = map Fulfilled images ->
  (Exists (fun image => data image = []) images ->
   result (generateImages recipes userId) w = Throw image_error) /\
  (Forall has_image images ->
   result (generateImages recipes userId) w =
     Return (zip_with with_name images recipes) /\
   map imgLink (zip_with with_name images recipes) = map first_url images) /\
  (forall pairs,
     result (generateImages recipes userId) w = Return pairs ->
     Forall has_image images).
Proof.
  intros Hok. split; [| split].
  - apply generateImages_some_without_image. exact Hok.
  - intros Hall. split.
    + apply generateImages_all_with_image; assumption.
    + apply zip_with_links, (fulfilled_length _ _ _ Hok).
  - intros pairs. unfold result. rewrite generateImages_run. cbv zeta.
    apply Promise_all_fulfilled in Hok. rewrite Hok.
    destruct (name_images recipes 0 images) as [l|e] eqn:E; [| discriminate].
    intros _. exact (name_images_returns _ _ _ _ E).
Qed.

Lemma generateImages_first_image_witness :
  result (generateImages [Sample.omelette; Sample.toast] Sample.u1)
         Sample.second_empty = Throw image_error /\
  result (generateImages [Sample.omelette] Sample.u1) (Sample.answering []) =
    Return [mkImageWithName (Some (lit "https://img/1")) (lit "Omelette")].
Proof.
  split.
  - apply (generateImages_first_image Sample.second_empty
             [Sample.omelette; Sample.toast] Sample.u1
             [Sample.one_image "https://img/1"; Sample.no_image]).
    + reflexivity.
    + apply Exists_cons_tl, Exists_cons_hd. reflexivity.
  - apply (generateImages_first_image (Sample.answering [])
             [Sample.omelette] Sample.u1 [Sample.one_image "https://img/1"]).
    + reflexivity.
    + repeat constructor; discriminate.
Defined.

(** C10 as stated fails: both requests are fulfilled, the second response
    has an empty [data], and the call throws: no pair with an undefined
    [imgLink] is returned. *)
Lemma generateImages_empty_data_throws :
  image_outcomes Sample.second_empty 0 [Sample.omelette; Sample.toast] =
    map Fulfilled [Sample.one_image "https://img/1"; Sample.no_image] /\
  data Sample.no_image = [] /\
  result (generateImages [Sample.omelette; Sample.toast] Sample.u1)
         Sample.second_empty = Throw image_error /\
  forall pairs,
    result (generateImages [Sample.omelette; Sample.toast] Sample.u1)
           Sample.second_empty <> Return pairs.
Proof. repeat split; try reflexivity. intros pairs. discriminate. Qed.

(** ** generateRecipe and validateIngredient in closed form *)

Lemma generateRecipe_run w ingredients dietaryPreferences userId :
  run (generateRecipe ingredients dietaryPreferences userId) w =
    let req := recipe_request ingredients dietaryPreferences in
    match hf_textGeneration w req with
    | Rejected e =>
        (mkState [EvTextGeneration req;
                  EvConsoleError (lit "Failed to generate recipe:") (ExnArg e)] 0,
         Throw recipe_error)
    | Fulfilled r =>
        let doc := recipe_log_doc ingredients dietaryPreferences userId r in
        (mkState (EvTextGeneration req :: save_events w doc) 0,
         Return (mkResponseType (Some (generated_text r))
                   (or_sentinel (save_id w doc))))
    end.
Proof.
  unfold run, generateRecipe, try_catch. cbv zeta.
  erewrite bind_run; [| unfold hf_textGeneration_call; reflexivity].
  fold (recipe_request ingredients dietaryPreferences).
  destruct (hf_textGeneration w _) as [r|e].
  - erewrite bind_run; [| reflexivity].
    erewrite bind_run; [| apply saveOpenaiResponses_run].
    reflexivity.
  - erewrite bind_throw; [| reflexivity]. reflexivity.
Qed.

Lemma validateIngredient_run w ingredientName userId :
  run (validateIngredient ingredientName userId) w =
    let req := validation_request ingredientName in
    match hf_textGeneration w req with
    | Rejected e =>
        (mkState [EvTextGeneration req;
                  EvConsoleError (lit "Failed to validate ingredient:")
                    (ExnArg e)] 0,
         Throw validation_error)
    | Fulfilled r =>
        let raw :=
          [EvTextGeneration req;
           EvConsoleLog (lit "Raw response from Hugging Face:") (ResponseArg r)] in
        let text := generated_text r in
        if truthy text then
          let shown := raw ++ [EvConsoleLog (lit "Validation Text:") (TextArg text)] in
          match JSON_parse (trim text) with
          | Some v =>
              (mkState
                 (shown ++ save_events w (validation_log_doc ingredientName userId r)) 0,
               Return v)
          | None =>
              (mkState
                 (shown ++ [EvConsoleError (lit "Failed to parse JSON response:")
                              (ExnArg SyntaxError)]) 0,
               Return JNull)
          end
        else
          (mkState
             (raw ++ [EvConsoleError
                        (lit "No response text received from Hugging Face") NoArg]) 0,
           Return JNull)
    end.
Proof.
  unfold run, validateIngredient, try_catch at 1. cbv zeta.
  erewrite bind_run; [| unfold hf_textGeneration_call; reflexivity].
  fold (validation_request ingredientName).
  destruct (hf_textGeneration w _) as [r|e].
  - erewrite bind_run; [| reflexivity].
    erewrite bind_run; [| reflexivity].
    destruct (truthy (generated_text r)).
    + erewrite bind_run; [| reflexivity].
      unfold try_catch, JSON_parse_call.
      destruct (JSON_parse (trim (generated_text r))) as [v|].
      * erewrite bind_run; [| reflexivity].
        erewrite bind_run; [| apply saveOpenaiResponses_run].
        reflexivity.
      * erewrite bind_throw; [| reflexivity]. reflexivity.
    + reflexivity.
  - erewrite bind_throw; [| reflexivity]. reflexivity.
Qed.

Lemma parse_needs_text text v :
  JSON_parse (trim text) = Some v -> truthy text = true.
Proof. destruct text; [discriminate | reflexivity]. Qed.

Lemma all_strings l :
  forallb is_JString l = true -> exists strings, l = map JString strings.
Proof.
  induction l as [|v l IH]; simpl.
  - exists []. reflexivity.
  - destruct v; try discriminate. intros H.
    destruct (IH H) as [strings ->]. exists (s :: strings). reflexivity.
Qed.

Lemma is_ValidationResponse_spec v :
  is_ValidationResponse v = true <->
  exists b strings,
    get_property v (lit "isValid") = Some (JBool b) /\
    get_property v (lit "possibleVariations") = Some (JArray (map JString strings)).
Proof.
  unfold is_ValidationResponse. split.
  - destruct (get_property v (lit "isValid")) as [[]|]; try discriminate.
    destruct (get_property v (lit "possibleVariations")) as [[]|];
      try discriminate.
    intros H. apply all_strings in H as [strings ->]. eauto.
  - intros (b & strings & -> & ->).
    induction strings; [reflexivity | assumption].
Qed.

(** ** Ingredient validation *)

(** C2: when the text endpoint answers, [validateIngredient] returns
    [null] if the text is empty and if the trimmed text does not parse,
    without throwing; if the trimmed text parses to a value of the shape
    [{isValid, possibleVariations}] it returns that value.  When the
    request is rejected it throws the error [Failed to validate
    ingredient]. *)
Theorem validateIngredient_outcome w ingredientName userId :
  (forall r,
     hf_textGeneration w (validation_request ingredientName) = Fulfilled r ->
     (generated_text r = [] ->
      result (validateIngredient ingredientName userId) w = Return JNull) /\
     (JSON_parse (trim (generated_text r)) = None ->
      result (validateIngredient ingredientName userId) w = Return JNull) /\
     (forall v,
        JSON_parse (trim (generated_text r)) = Some v ->
        is_ValidationResponse v = true ->
        result (validateIngredient ingredientName userId) w = Return v /\
        exists b strings,
          get_property v (lit "isValid") = Some (JBool b) /\
          get_property v (lit "possibleVariations") =
            Some (JArray (map JString strings)))) /\
  (forall e,
     hf_textGeneration w (validation_request ingredientName) = Rejected e ->
     result (validateIngredient ingredientName userId) w = Throw validation_error).
Proof.
  unfold result. rewrite validateIngredient_run. cbv zeta.
  split.
  - intros r ->. split; [| split].
    + intros ->. reflexivity.
    + intros ->. destruct (truthy (generated_text r)); reflexivity.
    + intros v Hparse Hshape. split.
      * rewrite (parse_needs_text _ _ Hparse), Hparse. reflexivity.
      * apply is_ValidationResponse_spec. exact Hshape.
  - intros e ->. reflexivity.
Qed.

Lemma validateIngredient_outcome_witness :
  result (validateIngredient (lit "tofu") Sample.u1) (Sample.answering []) =
    Return JNull /\
  result (validateIngredient (lit "tofu") Sample.u1)
         (Sample.answering (lit "Sure! Tofu is an ingredient.")) = Return JNull /\
  result (validateIngredient (lit "tofu") Sample.u1)
         (Sample.answering Sample.valid_reply) = Return Sample.valid_value /\
  result (validateIngredient (lit "tofu") Sample.u1) Sample.unreachable =
    Throw validation_error.
Proof.
  split; [| split; [| split]].
  - destruct (validateIngredient_outcome (Sample.answering []) (lit "tofu")
                Sample.u1) as [H _].
    destruct (H (mkHfResponse []) eq_refl) as (Hempty & _ & _).
    apply Hempty. reflexivity.
  - destruct (validateIngredient_outcome
                (Sample.answering (lit "Sure! Tofu is an ingredient."))
                (lit "tofu") Sample.u1) as [H _].
    destruct (H (mkHfResponse (lit "Sure! Tofu is an ingredient.")) eq_refl)
      as (_ & Hbad & _).
    apply Hbad. reflexivity.
  - destruct (validateIngredient_outcome (Sample.answering Sample.valid_reply)
                (lit "tofu") Sample.u1) as [H _].
    destruct (H (mkHfResponse Sample.valid_reply) eq_refl) as (_ & _ & Hgood).
    apply (Hgood Sample.valid_value); reflexivity.
  - destruct (validateIngredient_outcome Sample.unreachable (lit "tofu")
                Sample.u1) as [_ H].
    apply (H (ServiceFailure (lit "network"))). reflexivity.
Defined.

(** C9: the texts 42 and {} are valid JSON that is not of the shape
    [{isValid, possibleVariations}], and for each of them
    [validateIngredient] returns the parsed value, which is not [null]:
    nothing checks the shape. *)
Theorem validateIngredient_no_schema_check :
  returned_unchecked (lit "42") /\ returned_unchecked (lit "{}").
Proof.
  split.
  - exists (JNumber (lit "42")). repeat split; try reflexivity; try discriminate.
    intros w ingredientName userId H.
    unfold result. rewrite validateIngredient_run. cbv zeta. rewrite H.
    reflexivity.
  - exists (JObject []). repeat split; try reflexivity; try discriminate.
    intros w ingredientName userId H.
    unfold result. rewrite validateIngredient_run. cbv zeta. rewrite H.
    reflexivity.
Qed.

Lemma validateIngredient_no_schema_check_witness :
  exists v,
    result (validateIngredient (lit "tofu") Sample.u1)
           (Sample.answering (lit "42")) = Return v /\
    v <> JNull /\ is_ValidationResponse v = false.
Proof.
  destruct validateIngredient_no_schema_check as [(v & _ & Hnull & Hshape & H) _].
  exists v. split; [| split; assumption].
  apply (H (Sample.answering (lit "42")) (lit "tofu") Sample.u1). reflexivity.
Defined.

(** ** Recipe generation *)

(** C6: when the text endpoint answers with a text, [generateRecipe]
    returns that text as [recipes] together with an [openaiPromptId] that
    is a non-empty string, either the sentinel or the id of the stored
    record; when the request is rejected it throws the error [Failed to
    generate recipe] and returns nothing. *)
Theorem generateRecipe_outcome w ingredients dietaryPreferences userId :
  (forall r,
     hf_textGeneration w (recipe_request ingredients dietaryPreferences) =
       Fulfilled r ->
     exists p,
       result (generateRecipe ingredients dietaryPreferences userId) w =
         Return (mkResponseType (Some (generated_text r)) p) /\
       p <> [] /\
       (p = lit "null-prompt-id" \/
        exists created,
          aiGenerated_create w
            (recipe_log_doc ingredients dietaryPreferences userId r) =
            Fulfilled created /\
          p = _id created)) /\
  (forall e,
     hf_textGeneration w (recipe_request ingredients dietaryPreferences) =
       Rejected e ->
     result (generateRecipe ingredients dietaryPreferences userId) w =
       Throw recipe_error).
Proof.
  unfold result. rewrite generateRecipe_run. cbv zeta. split.
  - intros r ->. eexists. split; [reflexivity |].
    split; [apply or_sentinel_nonempty |].
    unfold save_id. destruct (connectDB w); [| left; reflexivity].
    destruct (aiGenerated_create w _) as [created|]; [| left; reflexivity].
    destruct (_id created) eqn:E; [left; reflexivity |].
    right. exists created. rewrite E. split; reflexivity.
  - intros e ->. reflexivity.
Qed.

Lemma generateRecipe_outcome_witness :
  result (generateRecipe [Sample.egg] [] Sample.u1)
         (Sample.answering (lit "<json>")) =
    Return (mkResponseType (Some (lit "<json>")) (lit "doc-1")) /\
  result (generateRecipe [Sample.egg] [] Sample.u1) Sample.unreachable =
    Throw recipe_error.
Proof.
  split.
  - destruct (generateRecipe_outcome (Sample.answering (lit "<json>"))
                [Sample.egg] [] Sample.u1) as [H _].
    destruct (H (mkHfResponse (lit "<json>")) eq_refl) as (p & Hres & _ & Hp).
    destruct Hp as [Hp | (created & Hc & Hp)].
    + subst p. vm_compute in Hres. discriminate Hres.
    + injection Hc as <-. subst p. exact Hres.
  - destruct (generateRecipe_outcome Sample.unreachable [Sample.egg] []
                Sample.u1) as [_ H].
    apply (H (ServiceFailure (lit "network"))). reflexivity.
Defined.

(** ** Response logging *)

Lemma image_outcomes_same w w' recipes : forall k,
  same_inference w w' -> image_outcomes w k recipes = image_outcomes w' k recipes.
Proof.
  intros k [_ Himg]. revert k.
  induction recipes as [|r rs IH]; intros k; simpl;
    [reflexivity | rewrite Himg, IH; reflexivity].
Qed.

Lemma generateImages_result w recipes userId :
  result (generateImages recipes userId) w =
    match Promise_all (image_outcomes w 0 recipes) with
    | Rejected _ => Throw image_error
    | Fulfilled images =>
        match name_images recipes 0 images with
        | Return l => Return l
        | Throw _ => Throw image_error
        end
    end.
Proof.
  unfold result. rewrite generateImages_run. cbv zeta.
  destruct (Promise_all (image_outcomes w 0 recipes)) as [images|e];
    [destruct (name_images recipes 0 images) |]; reflexivity.
Qed.

Lemma validateIngredient_result w ingredientName userId :
  result (validateIngredient ingredientName userId) w =
    match hf_textGeneration w (validation_request ingredientName) with
    | Rejected _ => Throw validation_error
    | Fulfilled r =>
        if truthy (generated_text r) then
          match JSON_parse (trim (generated_text r)) with
          | Some v => Return v
          | None => Return JNull
          end
        else Return JNull
    end.
Proof.
  unfold result. rewrite validateIngredient_run. cbv zeta.
  destruct (hf_textGeneration w _) as [r|e]; [| reflexivity].
  destruct (truthy (generated_text r)); [| reflexivity].
  destruct (JSON_parse (trim (generated_text r))); reflexivity.
Qed.

Lemma log_write_attempted_app tr1 tr2 :
  log_write_attempted (tr1 ++ tr2) =
    log_write_attempted tr1 || log_write_attempted tr2.
Proof. apply existsb_app. Qed.

(** C3: take two worlds whose inference endpoints answer alike, the log
    write failing in the second one.  [generateImages] and
    [validateIngredient] return or throw the same in both; [generateRecipe]
    throws the same or returns the same [recipes], with the sentinel
    [null-prompt-id] as id in the world where the log write fails.  So the
    failed write never reaches the caller as an error. *)
Theorem log_failure_is_invisible w w'
    (batch : list Recipe) (ingredients : list Ingredient)
    (dietaryPreferences : list DietaryPreference)
    (ingredientName userId : jsstring) :
  same_inference w w' ->
  log_write_fails w' ->
  result (generateImages batch userId) w' =
    result (generateImages batch userId) w /\
  result (validateIngredient ingredientName userId) w' =
    result (validateIngredient ingredientName userId) w /\
  match result (generateRecipe ingredients dietaryPreferences userId) w with
  | Return r =>
      result (generateRecipe ingredients dietaryPreferences userId) w' =
        Return (mkResponseType (recipes r) (lit "null-prompt-id"))
  | Throw e =>
      result (generateRecipe ingredients dietaryPreferences userId) w' = Throw e
  end.
Proof.
  intros Hsame Hfails. split; [| split].
  - rewrite !generateImages_result, (image_outcomes_same w w') by exact Hsame.
    reflexivity.
  - rewrite !validateIngredient_result. destruct Hsame as [<- _]. reflexivity.
  - unfold result. rewrite !generateRecipe_run. cbv zeta.
    destruct Hsame as [<- _].
    destruct (hf_textGeneration w _) as [r|e]; [| reflexivity].
    cbn [snd recipes]. rewrite (save_id_fails _ _ Hfails). reflexivity.
Qed.

Lemma log_failure_is_invisible_witness :
  result (generateImages [Sample.omelette] Sample.u1)
         (Sample.unlogged (lit "<json>")) =
    result (generateImages [Sample.omelette] Sample.u1)
           (Sample.answering (lit "<json>")) /\
  result (validateIngredient (lit "tofu") Sample.u1)
         (Sample.unlogged (lit "<json>")) =
    result (validateIngredient (lit "tofu") Sample.u1)
           (Sample.answering (lit "<json>")) /\
  result (generateRecipe [Sample.egg] [] Sample.u1)
         (Sample.unlogged (lit "<json>")) =
    Return (mkResponseType (Some (lit "<json>")) (lit "null-prompt-id")).
Proof.
  apply (log_failure_is_invisible
           (Sample.answering (lit "<json>")) (Sample.unlogged (lit "<json>"))
           [Sample.omelette] [Sample.egg] [] (lit "tofu") Sample.u1).
  - split; reflexivity.
  - left. exists (ServiceFailure (lit "no connection")). reflexivity.
Defined.

(** C4, as the code has it: [generateRecipe] attempts the log write
    whenever the text endpoint answers, and [generateImages] whenever all
    image requests are fulfilled; each hands the store its prompt and the
    response once the store is reached.  [validateIngredient] attempts the
    write exactly when the answer's text parses after trimming, and
    attempts none for an empty text or one that does not parse. *)
Theorem log_write_after_inference w userId :
  (forall ingredients dietaryPreferences r,
     hf_textGeneration w (recipe_request ingredients dietaryPreferences) =
       Fulfilled r ->
     let tr := events (generateRecipe ingredients dietaryPreferences userId) w in
     log_write_attempted tr = true /\
     (forall u, connectDB w = Fulfilled u ->
        In (EvCreate (recipe_log_doc ingredients dietaryPreferences userId r)) tr)) /\
  (forall batch images,
     image_outcomes w 0 batch = map Fulfilled images ->
     let tr := events (generateImages batch userId) w in
     log_write_attempted tr = true /\
     (forall u, connectDB w = Fulfilled u ->
        In (EvCreate (images_log_doc batch userId images)) tr)) /\
  (forall ingredientName r,
     hf_textGeneration w (validation_request ingredientName) = Fulfilled r ->
     let tr := events (validateIngredient ingredientName userId) w in
     (log_write_attempted tr = true <->
      exists v, JSON_parse (trim (generated_text r)) = Some v) /\
     (forall v u,
        JSON_parse (trim (generated_text r)) = Some v ->
        connectDB w = Fulfilled u ->
        In (EvCreate (validation_log_doc ingredientName userId r)) tr)).
Proof.
  split; [| split].
  - intros ingredients dietaryPreferences r Hr. cbv zeta. unfold events.
    rewrite generateRecipe_run. cbv zeta. rewrite Hr. cbn [fst trace].
    split.
    + change (EvTextGeneration ?q :: ?l) with ([EvTextGeneration q] ++ l).
      rewrite log_write_attempted_app, save_events_attempt. reflexivity.
    + intros u Hu. right. exact (save_events_create _ _ _ Hu).
  - intros batch images Hok. cbv zeta. unfold events.
    rewrite generateImages_run. cbv zeta.
    apply Promise_all_fulfilled in Hok. rewrite Hok.
    destruct (name_images batch 0 images); cbn [fst trace]; split;
      rewrite ?log_write_attempted_app, ?save_events_attempt, ?orb_true_r;
      try reflexivity;
      intros u Hu; rewrite ?in_app_iff;
      pose proof (save_events_create w (images_log_doc batch userId images) u Hu);
      auto.
  - intros ingredientName r Hr. cbv zeta. unfold events.
    rewrite validateIngredient_run. cbv zeta. rewrite Hr.
    destruct (truthy (generated_text r)) eqn:Ht.
    + destruct (JSON_parse (trim (generated_text r))) as [v|] eqn:Hp;
        cbn [fst trace].
      * split.
        -- rewrite log_write_attempted_app, save_events_attempt, orb_true_r.
           split; eauto.
        -- intros v' u _ Hu. rewrite in_app_iff. right.
           exact (save_events_create _ _ _ Hu).
      * split; [| discriminate].
        split; [discriminate | intros [v Hv]; discriminate].
    + cbn [fst trace]. split.
      * split; [discriminate |]. intros [v Hv].
        apply parse_needs_text in Hv. congruence.
      * intros v u Hv. apply parse_needs_text in Hv. congruence.
Qed.

Lemma log_write_after_inference_witness :
  log_write_attempted
    (events (generateRecipe [Sample.egg] [] Sample.u1)
            (Sample.answering (lit "<json>"))) = true /\
  log_write_attempted
    (events (generateImages [Sample.omelette] Sample.u1)
            (Sample.answering (lit "<json>"))) = true /\
  log_write_attempted
    (events (validateIngredient (lit "tofu") Sample.u1)
            (Sample.answering Sample.valid_reply)) = true.
Proof.
  destruct (log_write_after_inference
              (Sample.answering (lit "<json>")) Sample.u1) as (Hrecipe & Himages & _).
  destruct (log_write_after_inference
              (Sample.answering Sample.valid_reply) Sample.u1) as (_ & _ & Hvalid).
  split; [| split].
  - apply (Hrecipe [Sample.egg] [] (mkHfResponse (lit "<json>"))). reflexivity.
  - apply (Himages [Sample.omelette] [Sample.one_image "https://img/1"]).
    reflexivity.
  - destruct (Hvalid (lit "tofu") (mkHfResponse Sample.valid_reply) eq_refl)
      as [Hiff _].
    apply Hiff. exists Sample.valid_value. reflexivity.
Defined.

(** C4 as stated fails: the text endpoint answers, once with an empty text
    and once with a text that is not JSON; [validateIngredient] returns
    [null] both times and no log write is attempted. *)
Lemma validateIngredient_unparsed_not_logged :
  (result (validateIngredient (lit "tofu") Sample.u1) (Sample.answering []) =
     Return JNull /\
   log_write_attempted
     (events (validateIngredient (lit "tofu") Sample.u1) (Sample.answering [])) =
     false) /\
  (result (validateIngredient (lit "tofu") Sample.u1)
          (Sample.answering (lit "Sure! Tofu is an ingredient.")) =
     Return JNull /\
   log_write_attempted
     (events (validateIngredient (lit "tofu") Sample.u1)
             (Sample.answering (lit "Sure! Tofu is an ingredient."))) =
     false).
Proof. repeat split. Qed.

(** ** Authentication callbacks *)

(** C8: the redirect callback returns the base URL whatever URL was
    requested, and the session callback stores the id of the provider's
    user in the [user] of the session it was given, leaves everything else
    in place, and returns that very session. *)
Theorem auth_callbacks
    (store : gmap Auth.ref Auth.Session) (l : Auth.ref) (s : Auth.Session)
    (token : Auth.JWT) (u : Auth.AdapterUser) (url url' baseUrl : jsstring) :
  store !! l = Some s ->
  Auth.redirect url baseUrl = baseUrl /\
  Auth.redirect url baseUrl = Auth.redirect url' baseUrl /\
  snd (Auth.session store l token u) = l /\
  (exists s',
     fst (Auth.session store l token u) !! l = Some s' /\
     Auth.su_id (Auth.user s') = Some (Auth.au_id u) /\
     Auth.su_name (Auth.user s') = Auth.su_name (Auth.user s) /\
     Auth.su_email (Auth.user s') = Auth.su_email (Auth.user s) /\
     Auth.su_image (Auth.user s') = Auth.su_image (Auth.user s) /\
     Auth.expires s' = Auth.expires s) /\
  (forall l', l' <> l -> fst (Auth.session store l token u) !! l' = store !! l').
Proof.
  intros Hl. repeat split.
  - exists (Auth.assign_user_id (Auth.au_id u) s).
    split; [| repeat split].
    unfold Auth.session. cbn [fst]. rewrite lookup_alter_eq, Hl. reflexivity.
  - intros l' Hne. unfold Auth.session. cbn [fst].
    apply lookup_alter_ne. congruence.
Qed.

Lemma auth_callbacks_witness :
  Auth.redirect (lit "https://evil.example/landing") (lit "https://site.example") =
    lit "https://site.example" /\
  snd (Auth.session Sample.a_store 1%positive (Auth.mkJWT None) Sample.a_user) =
    1%positive /\
  exists s',
    fst (Auth.session Sample.a_store 1%positive (Auth.mkJWT None) Sample.a_user)
      !! 1%positive = Some s' /\
    Auth.su_id (Auth.user s') = Some (lit "user-7").
Proof.
  destruct (auth_callbacks Sample.a_store 1%positive Sample.a_session
              (Auth.mkJWT None) Sample.a_user
              (lit "https://evil.example/landing") (lit "/")
              (lit "https://site.example"))
    as (Hredirect & _ & Href & (s' & Hs' & Hid & _) & _).
  - reflexivity.
  - split; [exact Hredirect | split; [exact Href |]].
    exists s'. split; [exact Hs' | exact Hid].
Defined.

(** * Further properties *)

(** ** The response logger on its own *)

(** X1: [saveOpenaiResponses] never throws.  It returns the id of the
    created record exactly when both the connection and the insert are
    fulfilled, and when the connection is rejected it reports the reason
    and never calls [create]. *)
Theorem saveOpenaiResponses_never_throws doc w s :
  exists s' r,
    saveOpenaiResponses doc w s = (s', Return r) /\
    (forall id,
       r = Some id <->
       exists u created,
         connectDB w = Fulfilled u /\
         aiGenerated_create w doc = Fulfilled created /\
         _id created = id) /\
    (forall e,
       connectDB w = Rejected e ->
       r = None /\
       trace s' =
         trace s ++
         [EvConnectDB;
          EvConsoleError (lit "Failed to save response to db:") (ExnArg e)]) /\
    (forall u e,
       connectDB w = Fulfilled u ->
       aiGenerated_create w doc = Rejected e ->
       r = None /\
       trace s' =
         trace s ++
         [EvConnectDB; EvCreate doc;
          EvConsoleError (lit "Failed to save response to db:") (ExnArg e)]).
Proof.
  eexists _, _. split; [apply saveOpenaiResponses_run |].
  cbn [trace]. unfold save_id, save_events.
  destruct (connectDB w) as [u|e]; [destruct (aiGenerated_create w doc) as [c|e] |].
  - split; [| split].
    + intros id. split.
      * intros H. injection H as <-. eauto.
      * intros (u' & c' & _ & Hc & <-). injection Hc as <-. reflexivity.
    + intros e H. discriminate H.
    + intros u' e _ H. discriminate H.
  - split; [| split].
    + intros id. split; [discriminate |].
      intros (u' & c' & _ & Hc & _). discriminate Hc.
    + intros e' H. discriminate H.
    + intros u' e' _ H. injection H as <-. split; reflexivity.
  - split; [| split].
    + intros id. split; [discriminate |].
      intros (u' & c' & Hc & _). discriminate Hc.
    + intros e' H. injection H as <-. split; reflexivity.
    + intros u' e' H. discriminate H.
Qed.

Lemma saveOpenaiResponses_never_throws_witness :
  exists s',
    saveOpenaiResponses (mkLogDoc Sample.u1 (lit "p") (ImageResponses []))
      (Sample.unlogged []) initial = (s', Return None) /\
    trace s' =
      [EvConnectDB;
       EvConsoleError (lit "Failed to save response to db:")
         (ExnArg (ServiceFailure (lit "no connection")))].
Proof.
  destruct (saveOpenaiResponses_never_throws
              (mkLogDoc Sample.u1 (lit "p") (ImageResponses []))
              (Sample.unlogged []) initial) as (s' & r & Hrun & _ & Hdown & _).
  destruct (Hdown (ServiceFailure (lit "no connection")) eq_refl) as [-> Htr].
  exists s'. split; [exact Hrun | exact Htr].
Defined.

(** ** Counting what a call does *)

Lemma count_events_app p tr1 tr2 :
  count_events p (tr1 ++ tr2) = count_events p tr1 + count_events p tr2.
Proof. unfold count_events. rewrite filter_app, length_app. reflexivity. Qed.

Lemma count_events_save w doc :
  count_events is_create (save_events w doc) <= 1 /\
  count_events is_connect (save_events w doc) = 1 /\
  count_events is_inference (save_events w doc) = 0.
Proof.
  unfold save_events.
  destruct (connectDB w); [destruct (aiGenerated_create w doc) |];
    vm_compute; repeat split; lia.
Qed.

Lemma count_events_requests p recipes :
  (forall req, p (EvImagesGenerate req) = false) ->
  count_events p (map (fun r => EvImagesGenerate (image_request r)) recipes) = 0.
Proof.
  intros Hp. induction recipes as [|r rs IH]; [reflexivity |].
  unfold count_events in *. simpl. rewrite filter_cons_False; [exact IH |].
  rewrite Hp. discriminate.
Qed.

Lemma count_events_console p msg arg :
  p (EvConsoleError msg arg) = false ->
  count_events p [EvConsoleError msg arg] = 0.
Proof.
  intros Hp. unfold count_events.
  rewrite filter_cons_False; [reflexivity | rewrite Hp; discriminate].
Qed.

Lemma requests_attempt_no_log recipes :
  log_write_attempted
    (map (fun r => EvImagesGenerate (image_request r)) recipes) = false.
Proof. induction recipes as [|r rs IH]; [reflexivity | exact IH]. Qed.

(** X2: the document store is reached only after the inference went
    through: [generateRecipe] attempts the log write exactly when the text
    request is fulfilled, [generateImages] exactly when every image request
    is fulfilled (also when reading the images then throws), and
    [validateIngredient] never attempts it after a rejected request. *)
Theorem log_write_only_after_inference w userId :
  (forall ingredients dietaryPreferences,
     log_write_attempted
       (events (generateRecipe ingredients dietaryPreferences userId) w) = true <->
     exists r,
       hf_textGeneration w (recipe_request ingredients dietaryPreferences) =
         Fulfilled r) /\
  (forall batch,
     log_write_attempted (events (generateImages batch userId) w) = true <->
     exists images, image_outcomes w 0 batch = map Fulfilled images) /\
  (forall ingredientName,
     log_write_attempted
       (events (validateIngredient ingredientName userId) w) = true ->
     exists r,
       hf_textGeneration w (validation_request ingredientName) = Fulfilled r).
Proof.
  split; [| split].
  - intros ingredients dietaryPreferences. unfold events.
    rewrite generateRecipe_run. cbv zeta.
    destruct (hf_textGeneration w _) as [r|e]; cbn [fst trace].
    + change (EvTextGeneration ?q :: ?l) with ([EvTextGeneration q] ++ l).
      rewrite log_write_attempted_app, save_events_attempt. split; eauto.
    + split; [discriminate | intros [r H]; discriminate].
  - intros batch. unfold events. rewrite generateImages_run. cbv zeta.
    destruct (Promise_all (image_outcomes w 0 batch)) as [images|e] eqn:E.
    + apply Promise_all_fulfilled in E.
      destruct (name_images batch 0 images); cbn [fst trace];
        rewrite ?log_write_attempted_app, save_events_attempt, ?orb_true_r;
        cbn [orb]; split; eauto.
    + cbn [fst trace]. rewrite log_write_attempted_app. split.
      * rewrite requests_attempt_no_log. discriminate.
      * intros [images H]. apply Promise_all_fulfilled in H. congruence.
  - intros ingredientName. unfold events. rewrite validateIngredient_run.
    cbv zeta. destruct (hf_textGeneration w _) as [r|e]; [eauto |].
    discriminate.
Qed.

(** X3: whatever the world, one call connects to the store at most once
    and inserts at most one document; [generateRecipe] and
    [validateIngredient] send exactly one text request each. *)
Theorem at_most_one_log_document w
    (batch : list Recipe) (ingredients : list Ingredient)
    (dietaryPreferences : list DietaryPreference)
    (ingredientName userId : jsstring) :
  let recipe_events :=
    events (generateRecipe ingredients dietaryPreferences userId) w in
  let image_events := events (generateImages batch userId) w in
  let validation_events :=
    events (validateIngredient ingredientName userId) w in
  (count_events is_connect recipe_events <= 1 /\
   count_events is_create recipe_events <= 1 /\
   count_events is_text_request recipe_events = 1) /\
  (count_events is_connect image_events <= 1 /\
   count_events is_create image_events <= 1) /\
  (count_events is_connect validation_events <= 1 /\
   count_events is_create validation_events <= 1 /\
   count_events is_text_request validation_events = 1).
Proof.
  cbv zeta. unfold events.
  rewrite generateRecipe_run, generateImages_run, validateIngredient_run.
  cbv zeta. split; [| split].
  - destruct (hf_textGeneration w (recipe_request _ _)) as [r|e];
      cbn [fst trace]; [| vm_compute; lia].
    change (EvTextGeneration ?q :: ?l) with ([EvTextGeneration q] ++ l).
    rewrite !count_events_app.
    unfold save_events.
    destruct (connectDB w); [destruct (aiGenerated_create w _) |];
      vm_compute; lia.
  - pose proof (fun images =>
                  count_events_save w (images_log_doc batch userId images))
      as Hsave.
    destruct (Promise_all (image_outcomes w 0 batch)) as [images|e];
      [destruct (name_images batch 0 images) |]; cbn [fst trace];
      rewrite !count_events_app, !count_events_requests by reflexivity;
      rewrite ?(count_events_console is_connect),
        ?(count_events_console is_create) by reflexivity;
      try (destruct (Hsave images) as (Hc & Hn & _)); lia.
  - destruct (hf_textGeneration w (validation_request _)) as [r|e];
      cbn [fst trace]; [| vm_compute; lia].
    destruct (truthy (generated_text r)); [| vm_compute; lia].
    destruct (JSON_parse (trim (generated_text r))); [| vm_compute; lia].
    cbn [fst trace]. rewrite !count_events_app. unfold save_events.
    destruct (connectDB w); [destruct (aiGenerated_create w _) |];
      vm_compute; lia.
Qed.

(** ** What reaches the inference endpoints *)

Lemma inference_events_app tr1 tr2 :
  inference_events (tr1 ++ tr2) = inference_events tr1 ++ inference_events tr2.
Proof. unfold inference_events. apply filter_app. Qed.

Lemma inference_events_save w doc : inference_events (save_events w doc) = [].
Proof.
  unfold save_events.
  destruct (connectDB w); [destruct (aiGenerated_create w doc) |]; reflexivity.
Qed.

Lemma inference_events_requests recipes :
  inference_events (map (fun r => EvImagesGenerate (image_request r)) recipes) =
    map (fun r => EvImagesGenerate (image_request r)) recipes.
Proof.
  induction recipes as [|r rs IH]; [reflexivity |].
  unfold inference_events in *. simpl.
  rewrite filter_cons_True by reflexivity. f_equal. exact IH.
Qed.

(** X4: the user id never leaves for an inference endpoint: the requests
    a call sends are fixed by the ingredients, preferences, recipes or
    ingredient name alone.  The result of [generateImages] and of
    [validateIngredient], and the [recipes] of [generateRecipe], are the
    same for any two user ids. *)
Theorem user_id_stays_local w
    (batch : list Recipe) (ingredients : list Ingredient)
    (dietaryPreferences : list DietaryPreference)
    (ingredientName userId userId' : jsstring) :
  inference_events
    (events (generateRecipe ingredients dietaryPreferences userId) w) =
    [EvTextGeneration (recipe_request ingredients dietaryPreferences)] /\
  inference_events (events (generateImages batch userId) w) =
    map (fun r => EvImagesGenerate (image_request r)) batch /\
  inference_events (events (validateIngredient ingredientName userId) w) =
    [EvTextGeneration (validation_request ingredientName)] /\
  recipes_of (result (generateRecipe ingredients dietaryPreferences userId) w) =
    recipes_of (result (generateRecipe ingredients dietaryPreferences userId') w) /\
  result (generateImages batch userId) w =
    result (generateImages batch userId') w /\
  result (validateIngredient ingredientName userId) w =
    result (validateIngredient ingredientName userId') w.
Proof.
  repeat apply conj.
  - unfold events. rewrite generateRecipe_run. cbv zeta.
    destruct (hf_textGeneration w _) as [r|e]; cbn [fst trace]; [| reflexivity].
    change (EvTextGeneration ?q :: ?l) with ([EvTextGeneration q] ++ l).
    rewrite inference_events_app, inference_events_save. reflexivity.
  - unfold events. rewrite generateImages_run. cbv zeta.
    destruct (Promise_all (image_outcomes w 0 batch)) as [images|e];
      [destruct (name_images batch 0 images) |]; cbn [fst trace];
      rewrite !inference_events_app, inference_events_requests,
        ?inference_events_save, ?app_nil_r; reflexivity.
  - unfold events. rewrite validateIngredient_run. cbv zeta.
    destruct (hf_textGeneration w _) as [r|e]; [| reflexivity].
    destruct (truthy (generated_text r)); [| reflexivity].
    destruct (JSON_parse (trim (generated_text r))); [| reflexivity].
    cbn [fst trace]. rewrite inference_events_app, inference_events_save.
    reflexivity.
  - unfold result. rewrite !generateRecipe_run. cbv zeta.
    destruct (hf_textGeneration w _); reflexivity.
  - rewrite !generateImages_result. reflexivity.
  - rewrite !validateIngredient_result. reflexivity.
Qed.

(** X5: for an empty list of recipes [generateImages] sends no image
    request and returns the empty list, and still attempts a log write,
    whose document has no recipe name in its prompt and no response. *)
Theorem generateImages_empty_batch w userId :
  result (generateImages [] userId) w = Return [] /\
  image_requests (events (generateImages [] userId) w) = [] /\
  log_write_attempted (events (generateImages [] userId) w) = true /\
  (forall u,
     connectDB w = Fulfilled u ->
     In (EvCreate
           (mkLogDoc userId
              (lit "Image generation for recipe names  (note: not exact prompt)")
              (ImageResponses [])))
        (events (generateImages [] userId) w)).
Proof.
  split; [| split; [| split]].
  - rewrite generateImages_result. reflexivity.
  - apply generateImages_requests.
  - unfold events. rewrite generateImages_run. cbn.
    apply save_events_attempt.
  - intros u Hu. unfold events. rewrite generateImages_run. cbn.
    exact (save_events_create w _ u Hu).
Qed.

Lemma generateImages_empty_batch_witness :
  In (EvCreate
        (mkLogDoc Sample.u1
           (lit "Image generation for recipe names  (note: not exact prompt)")
           (ImageResponses [])))
     (events (generateImages [] Sample.u1) (Sample.answering [])).
Proof.
  destruct (generateImages_empty_batch (Sample.answering []) Sample.u1)
    as (_ & _ & _ & H).
  apply (H tt). reflexivity.
Defined.

(** ** More on the prompts *)

Lemma join_contains sep (x : jsstring) l :
  In x l -> exists before after, join sep l = before ++ x ++ after.
Proof.
  induction l as [|y l IH]; [intros [] |].
  intros [-> | Hin].
  - destruct l as [|z l].
    + exists [], []. simpl. rewrite app_nil_r. reflexivity.
    + exists [], (sep ++ join sep (z :: l)). reflexivity.
  - destruct (IH Hin) as (before & after & Heq).
    destruct l as [|z l]; [destruct Hin |].
    exists (y ++ sep ++ before), after.
    change (join sep (y :: z :: l)) with (y ++ sep ++ join sep (z :: l)).
    rewrite Heq, <- !app_assoc. reflexivity.
Qed.

(** X9: the validation prompt carries the ingredient name as it is, for
    every name, and two names that differ never get the same prompt. *)
Theorem validation_prompt_carries_name (ingredientName other : jsstring) :
  (exists before after,
     getIngredientValidationPrompt ingredientName =
       before ++ ingredientName ++ after) /\
  (getIngredientValidationPrompt ingredientName =
     getIngredientValidationPrompt other ->
   ingredientName = other).
Proof.
  split.
  - eexists _, _. reflexivity.
  - unfold getIngredientValidationPrompt. intros H.
    apply app_inv_head in H. apply app_inv_tail in H. exact H.
Qed.

Lemma validation_prompt_carries_name_witness : lit "tofu" = [116; 111; 102; 117]%N.
Proof.
  apply (validation_prompt_carries_name (lit "tofu") [116; 111; 102; 117]%N).
  reflexivity.
Defined.

(** X10: the image prompt carries the recipe name and the name of every
    ingredient of the recipe, each as it is. *)
Theorem image_prompt_carries_names
    (recipeName : jsstring) (ingredients : list Ingredient) :
  (exists before after,
     getImageGenerationPrompt recipeName ingredients =
       before ++ recipeName ++ after) /\
  (forall i,
     In i ingredients ->
     exists before after,
       getImageGenerationPrompt recipeName ingredients =
         before ++ ing_name i ++ after).
Proof.
  split.
  - eexists _, _. reflexivity.
  - intros i Hin.
    destruct (join_contains (lit ", ") (ing_name i) (map ing_name ingredients))
      as (before & after & Heq); [apply in_map, Hin |].
    unfold getImageGenerationPrompt. cbv zeta. rewrite Heq.
    match goal with
    | |- exists _ _, ?A ++ ?R ++ ?B ++ (?bf ++ ?x ++ ?af) ++ ?C = _ =>
        exists (A ++ R ++ B ++ bf), (af ++ C)
    end.
    rewrite <- !app_assoc. reflexivity.
Qed.

Lemma image_prompt_carries_names_witness :
  exists before after,
    getImageGenerationPrompt (lit "Omelette") [Sample.egg] =
      before ++ lit "egg" ++ after.
Proof.
  destruct (image_prompt_carries_names (lit "Omelette") [Sample.egg]) as [_ H].
  apply (H Sample.egg). left. reflexivity.
Defined.

(** X11: the image prompt reads the ingredients through their names only:
    quantities never show, and one ingredient whose name is two names with
    a comma and a space between them gives the prompt of the two
    ingredients. *)
Theorem image_prompt_reads_names_only
    (recipeName a b : jsstring) (l1 l2 : list Ingredient)
    (quantity quantity_a quantity_b : jsstring) :
  (map ing_name l1 = map ing_name l2 ->
   getImageGenerationPrompt recipeName l1 =
     getImageGenerationPrompt recipeName l2) /\
  getImageGenerationPrompt recipeName
    [mkIngredient (a ++ lit ", " ++ b) quantity] =
  getImageGenerationPrompt recipeName
    [mkIngredient a quantity_a; mkIngredient b quantity_b].
Proof.
  split.
  - unfold getImageGenerationPrompt. intros ->. reflexivity.
  - unfold getImageGenerationPrompt. cbn [map join ing_name].
    rewrite <- !app_assoc. reflexivity.
Qed.

Lemma image_prompt_reads_names_only_witness :
  getImageGenerationPrompt (lit "Omelette") [mkIngredient (lit "egg") (lit "2")] =
    getImageGenerationPrompt (lit "Omelette") [mkIngredient (lit "egg") (lit "12")].
Proof.
  apply (image_prompt_reads_names_only (lit "Omelette") [] []
           [mkIngredient (lit "egg") (lit "2")]
           [mkIngredient (lit "egg") (lit "12")] [] [] []).
  reflexivity.
Defined.

(** ** More on the session callback *)

(** X12: the session callback reads nothing but the id of the user it is
    given, and the last call decides: after two calls on the same session
    the store is what the second call alone would have made it, so calling
    it again with the same user changes nothing. *)
Theorem session_last_call_wins
    (store : gmap Auth.ref Auth.Session) (l : Auth.ref)
    (token token' : Auth.JWT) (u u' : Auth.AdapterUser) :
  Auth.session (fst (Auth.session store l token u)) l token' u' =
    Auth.session store l token' u' /\
  (Auth.au_id u = Auth.au_id u' ->
   Auth.session store l token u = Auth.session store l token' u').
Proof.
  split.
  - unfold Auth.session. cbn [fst]. f_equal.
    apply map_eq. intros l'.
    destruct (decide (l' = l)) as [-> | Hne].
    + rewrite !lookup_alter_eq. destruct (store !! l); reflexivity.
    + rewrite !lookup_alter_ne by congruence. reflexivity.
  - unfold Auth.session. intros ->. reflexivity.
Qed.

Lemma session_last_call_wins_witness :
  Auth.session Sample.a_store 1%positive (Auth.mkJWT None) Sample.a_user =
    Auth.session Sample.a_store 1%positive (Auth.mkJWT (Some (lit "sub")))
      Sample2.ada.
Proof.
  apply (session_last_call_wins Sample.a_store 1%positive (Auth.mkJWT None)
           (Auth.mkJWT (Some (lit "sub"))) Sample.a_user Sample2.ada).
  reflexivity.
Defined.

(** ** Trimming the reply *)

Lemma trimStart_spaces s : all_space s = true -> trimStart s = [].
Proof.
  induction s as [|c s IH]; [reflexivity |].
  simpl. intros H. apply andb_true_iff in H as [-> Hs]. exact (IH Hs).
Qed.

Lemma trimStart_app_spaces pad s :
  all_space pad = true -> trimStart (pad ++ s) = trimStart s.
Proof.
  induction pad as [|c pad IH]; [reflexivity |].
  simpl. intros H. apply andb_true_iff in H as [-> Hs]. exact (IH Hs).
Qed.

Lemma trimStart_app_text s pad :
  all_space s = false -> trimStart (s ++ pad) = trimStart s ++ pad.
Proof.
  induction s as [|c s IH]; [discriminate |].
  simpl. destruct (is_js_space c); [exact IH | reflexivity].
Qed.

Lemma all_space_rev s : all_space (rev s) = all_space s.
Proof.
  unfold all_space. induction s as [|c s IH]; [reflexivity |].
  simpl. rewrite forallb_app, IH. simpl. rewrite andb_true_r.
  apply andb_comm.
Qed.

Lemma trimEnd_app_spaces s pad :
  all_space pad = true -> trimEnd (s ++ pad) = trimEnd s.
Proof.
  intros H. unfold trimEnd. rewrite rev_app_distr, trimStart_app_spaces;
    [reflexivity | rewrite all_space_rev; exact H].
Qed.

Lemma trim_padding before s after :
  all_space before = true -> all_space after = true ->
  trim (before ++ s ++ after) = trim s.
Proof.
  intros Hb Ha. unfold trim. rewrite trimStart_app_spaces by exact Hb.
  destruct (all_space s) eqn:Hs.
  - rewrite trimStart_app_spaces, (trimStart_spaces after),
      (trimStart_spaces s) by assumption.
    reflexivity.
  - rewrite trimStart_app_text by exact Hs.
    apply trimEnd_app_spaces, Ha.
Qed.

Lemma parse_spaces s : all_space s = true -> JSON_parse (trim s) = None.
Proof.
  intros H. unfold trim. rewrite trimStart_spaces by exact H. reflexivity.
Qed.

(** X6: white space around the reply does not count.  Two replies that
    differ only by white space and line terminators at their ends (also
    those [JSON.parse] alone would refuse, such as a no-break space or a
    byte order mark) give the same result, and a reply made of white space
    alone gives [null]. *)
Theorem validateIngredient_ignores_padding w w' ingredientName userId
    (r r' : HfResponse) (before after : jsstring) :
  hf_textGeneration w (validation_request ingredientName) = Fulfilled r ->
  hf_textGeneration w' (validation_request ingredientName) = Fulfilled r' ->
  all_space before = true ->
  all_space after = true ->
  generated_text r' = before ++ generated_text r ++ after ->
  result (validateIngredient ingredientName userId) w' =
    result (validateIngredient ingredientName userId) w /\
  (all_space (generated_text r) = true ->
   result (validateIngredient ingredientName userId) w' = Return JNull).
Proof.
  intros Hr Hr' Hb Ha Htext.
  assert (Hnull : forall t,
            (if truthy t
             then match JSON_parse (trim t) with
                  | Some v => Return v
                  | None => Return JNull
                  end
             else Return JNull) =
            match JSON_parse (trim t) with
            | Some v => Return v
            | None => Return JNull
            end).
  { intros [|c t]; reflexivity. }
  rewrite !validateIngredient_result, Hr, Hr', !Hnull, Htext,
    trim_padding by assumption.
  split; [reflexivity |].
  intros Hs. rewrite parse_spaces by exact Hs. reflexivity.
Qed.

Lemma validateIngredient_ignores_padding_witness :
  result (validateIngredient (lit "tofu") Sample.u1)
         (Sample.answering Sample2.padded_reply) =
    result (validateIngredient (lit "tofu") Sample.u1)
           (Sample.answering Sample.valid_reply).
Proof.
  apply (validateIngredient_ignores_padding
           (Sample.answering Sample.valid_reply)
           (Sample.answering Sample2.padded_reply)
           (lit "tofu") Sample.u1
           (mkHfResponse Sample.valid_reply)
           (mkHfResponse Sample2.padded_reply)
           [65279; 160]%N [11; 12; 8232]%N); reflexivity.
Defined.


(** ** The ingredient list inside the recipe prompt *)

Lemma lex_run_app m s1 s2 :
  lex_run m (s1 ++ s2) =
    match lex_run m s1 with
    | Some (m', ts1) =>
        match lex_run m' s2 with
        | Some (m'', ts2) => Some (m'', ts1 ++ ts2)
        | None => None
        end
    | None => None
    end.
Proof.
  revert m; induction s1 as [|c s1 IH]; intros m; simpl.
  - destruct (lex_run m s2) as [[m'' ts2]|]; reflexivity.
  - destruct (Json.lex_step m c) as [[m' ts]|]; [| reflexivity].
    rewrite IH. destruct (lex_run m' s1) as [[m1 ts1]|]; [| reflexivity].
    destruct (lex_run m1 s2) as [[m2 ts2]|]; [| reflexivity].
    rewrite app_assoc. reflexivity.
Qed.

Lemma lex_from_run m s :
  Json.lex_from m s =
    match lex_run m s with
    | Some (m', ts) =>
        match Json.lex_end m' with
        | Some rest => Some (ts ++ rest)
        | None => None
        end
    | None => None
    end.
Proof.
  revert m; induction s as [|c s IH]; intros m; simpl.
  - destruct (Json.lex_end m); reflexivity.
  - destruct (Json.lex_step m c) as [[m' ts]|]; [| reflexivity].
    rewrite IH. destruct (lex_run m' s) as [[m1 ts1]|]; [| reflexivity].
    destruct (Json.lex_end m1); [| reflexivity].
    rewrite app_assoc. reflexivity.
Qed.

Lemma hex_value_hex_digit d :
  (d < 16)%N -> Json.hex_value (hex_digit d) = Some d.
Proof.
  intros H.
  assert (Hd : In d [0; 1; 2; 3; 4; 5; 6; 7; 8; 9; 10; 11; 12; 13; 14; 15]%N).
  { simpl. lia. }
  simpl in Hd. intuition (subst; reflexivity).
Qed.

Lemma hex_recompose c :
  (c < 65536)%N ->
  ((((0 * 16 + c / 4096 mod 16) * 16 + c / 256 mod 16) * 16 + c / 16 mod 16) * 16
   + c mod 16)%N = c.
Proof. intros H. zify. Z.to_euclidean_division_equations. lia. Qed.

Lemma hex_digit_bound c k : (c / k mod 16 < 16)%N.
Proof. apply N.mod_upper_bound. discriminate. Qed.

Lemma lex_run_silent m m' c s :
  Json.lex_step m c = Some (m', []) -> lex_run m (c :: s) = lex_run m' s.
Proof.
  intros H. simpl. rewrite H.
  destruct (lex_run m' s) as [[m'' rest]|]; reflexivity.
Qed.

Lemma lex_step_hex acc count value d :
  (d < 16)%N ->
  Json.lex_step (Json.LUnicode acc count value) (hex_digit d) =
    Some (match count with
          | 3 => Json.LString ((value * 16 + d)%N :: acc)
          | _ => Json.LUnicode acc (S count) (value * 16 + d)%N
          end, []).
Proof.
  intros H. simpl. rewrite hex_value_hex_digit by exact H.
  destruct count as [|[|[|[|count]]]]; reflexivity.
Qed.

Lemma lex_run_unicode_escape acc c :
  (c < 65536)%N ->
  lex_run (Json.LString acc) (unicode_escape c) = Some (Json.LString (c :: acc), []).
Proof.
  intros Hc. unfold unicode_escape.
  assert (H0 : (c mod 16 < 16)%N) by (apply N.mod_upper_bound; discriminate).
  rewrite (lex_run_silent _ (Json.LEscape acc)) by reflexivity.
  rewrite (lex_run_silent _ (Json.LUnicode acc 0 0)) by reflexivity.
  rewrite (lex_run_silent _ _ _ _ (lex_step_hex _ _ _ _ (hex_digit_bound c 4096))).
  rewrite (lex_run_silent _ _ _ _ (lex_step_hex _ _ _ _ (hex_digit_bound c 256))).
  rewrite (lex_run_silent _ _ _ _ (lex_step_hex _ _ _ _ (hex_digit_bound c 16))).
  rewrite (lex_run_silent _ _ _ _ (lex_step_hex _ _ _ _ H0)).
  cbn [lex_run]. rewrite hex_recompose by exact Hc. reflexivity.
Qed.

Lemma lex_run_raw acc c :
  (32 <= c)%N -> c <> 34%N -> c <> 92%N ->
  Json.lex_step (Json.LString acc) c = Some (Json.LString (c :: acc), []).
Proof.
  intros H32 H34 H92. simpl.
  destruct (N.eqb_spec c 34); [contradiction |].
  destruct (N.eqb_spec c 92); [contradiction |].
  destruct (N.ltb_spec c 32); [lia | reflexivity].
Qed.

(** A quoted code unit scans back to that code unit. *)
Lemma lex_run_quote_unit acc c :
  lex_run (Json.LString acc) (quote_unit c) = Some (Json.LString (c :: acc), []).
Proof.
  unfold quote_unit.
  repeat match goal with
         | |- context [N.eqb c ?k] =>
             destruct (N.eqb_spec c k) as [-> | ?]; [reflexivity |]
         end.
  destruct (N.ltb_spec c 32) as [Hlt | Hge]; cbn [orb].
  - apply lex_run_unicode_escape. lia.
  - unfold is_lead_surrogate, is_trail_surrogate.
    destruct (N.leb_spec 55296 c), (N.leb_spec c 56319),
      (N.leb_spec 56320 c), (N.leb_spec c 57343); cbn [andb orb];
      try (apply lex_run_unicode_escape; lia);
      (rewrite (lex_run_silent _ _ _ _ (lex_run_raw acc c Hge ltac:(assumption) ltac:(assumption)));
       reflexivity).
Qed.

Lemma lex_run_quote_units s :
  (forall acc,
     lex_run (Json.LString acc) (quote_units s) =
       Some (Json.LString (rev s ++ acc), [])) /\
  (forall c acc,
     lex_run (Json.LString acc) (quote_units (c :: s)) =
       Some (Json.LString (rev (c :: s) ++ acc), [])).
Proof.
  induction s as [|d s [IH1 IH2]].
  - split; [reflexivity |]. intros c acc. apply lex_run_quote_unit.
  - split; [exact (IH2 d) |]. intros c acc.
    change (quote_units (c :: d :: s)) with
      (if is_lead_surrogate c && is_trail_surrogate d
       then c :: d :: quote_units s
       else quote_unit c ++ quote_units (d :: s)).
    destruct (is_lead_surrogate c && is_trail_surrogate d) eqn:Hpair.
    + apply andb_true_iff in Hpair as [Hc Hd].
      unfold is_lead_surrogate, is_trail_surrogate in Hc, Hd.
      apply andb_true_iff in Hc as [Hc1 Hc2], Hd as [Hd1 Hd2].
      apply N.leb_le in Hc1, Hc2, Hd1, Hd2.
      rewrite (lex_run_silent _ _ _ _ (lex_run_raw acc c ltac:(lia) ltac:(lia) ltac:(lia))).
      rewrite (lex_run_silent _ _ _ _ (lex_run_raw _ d ltac:(lia) ltac:(lia) ltac:(lia))).
      rewrite IH1. cbn [rev]. rewrite <- !app_assoc. reflexivity.
    + rewrite lex_run_app, lex_run_quote_unit, (IH2 d).
      cbn [rev app]. rewrite <- !app_assoc. reflexivity.
Qed.

Lemma lex_run_QuoteJSONString s :
  lex_run Json.LDefault (QuoteJSONString s) =
    Some (Json.LDefault, [Json.TString s]).
Proof.
  unfold QuoteJSONString.
  rewrite (lex_run_silent _ (Json.LString [])) by reflexivity.
  rewrite lex_run_app, (proj1 (lex_run_quote_units s)), app_nil_r.
  cbn. rewrite rev_involutive. reflexivity.
Qed.

Lemma lex_run_ingredient i :
  lex_run Json.LDefault (stringify_ingredient i) =
    Some (Json.LDefault, ingredient_tokens i).
Proof.
  assert (Hopen : lex_run Json.LDefault (tpl "{'name':") =
            Some (Json.LDefault,
                  [Json.TLBrace; Json.TString (lit "name"); Json.TColon]))
    by (vm_compute; reflexivity).
  assert (Hnext : lex_run Json.LDefault (tpl ",'quantity':") =
            Some (Json.LDefault,
                  [Json.TComma; Json.TString (lit "quantity"); Json.TColon]))
    by (vm_compute; reflexivity).
  unfold stringify_ingredient.
  rewrite lex_run_app, Hopen. cbv beta iota.
  rewrite lex_run_app, lex_run_QuoteJSONString. cbv beta iota.
  rewrite lex_run_app, Hnext. cbv beta iota.
  rewrite lex_run_app, lex_run_QuoteJSONString. cbv beta iota.
  reflexivity.
Qed.

Lemma lex_run_elements l :
  lex_run Json.LDefault (join (lit ",") (map stringify_ingredient l)) =
    Some (Json.LDefault, elements_tokens l).
Proof.
  induction l as [|i l IH]; [reflexivity |].
  destruct l as [|j l]; [apply lex_run_ingredient |].
  change (join (lit ",") (map stringify_ingredient (i :: j :: l))) with
    (stringify_ingredient i ++ lit "," ++
     join (lit ",") (map stringify_ingredient (j :: l))).
  assert (Hcomma : lex_run Json.LDefault (lit ",") =
            Some (Json.LDefault, [Json.TComma])) by reflexivity.
  rewrite lex_run_app, lex_run_ingredient. cbv beta iota.
  rewrite lex_run_app, Hcomma. cbv beta iota.
  rewrite IH. reflexivity.
Qed.

Lemma lex_JSON_stringify l :
  Json.lex (JSON_stringify l) =
    Some (Json.TLBracket :: elements_tokens l ++ [Json.TRBracket]).
Proof.
  unfold Json.lex, JSON_stringify.
  assert (Hopen : lex_run Json.LDefault (lit "[") =
            Some (Json.LDefault, [Json.TLBracket])) by reflexivity.
  assert (Hclose : lex_run Json.LDefault (lit "]") =
            Some (Json.LDefault, [Json.TRBracket])) by reflexivity.
  rewrite lex_from_run, lex_run_app, Hopen. cbv beta iota.
  rewrite lex_run_app, lex_run_elements. cbv beta iota.
  rewrite Hclose. cbn [Json.lex_end app]. rewrite app_nil_r. reflexivity.
Qed.

Lemma parse_ingredient i st rest :
  Json.parse_from (Json.MValue, st) (ingredient_tokens i ++ rest) =
    Json.parse_from (Json.deliver (ingredient_json i) st) rest.
Proof. reflexivity. Qed.

Lemma parse_elements l : forall i es st rest,
  Json.parse_from (Json.MValue, Json.FArr es :: st)
    (elements_tokens (i :: l) ++ Json.TRBracket :: rest) =
  Json.parse_from
    (Json.deliver (JArray (rev es ++ map ingredient_json (i :: l))) st) rest.
Proof.
  induction l as [|j l IH]; intros i es st rest.
  - cbn [elements_tokens]. rewrite parse_ingredient.
    cbn [Json.deliver Json.parse_from Json.parse_step rev map].
    reflexivity.
  - change (elements_tokens (i :: j :: l)) with
      (ingredient_tokens i ++ Json.TComma :: elements_tokens (j :: l)).
    rewrite <- app_assoc, parse_ingredient.
    cbn [Json.deliver app]. cbn [Json.parse_from Json.parse_step].
    rewrite IH. cbn [rev map]. rewrite <- !app_assoc. reflexivity.
Qed.

Lemma JSON_stringify_parse l :
  JSON_parse (JSON_stringify l) = Some (ingredients_json l).
Proof.
  unfold JSON_parse. rewrite lex_JSON_stringify.
  destruct l as [|i l]; [reflexivity |].
  unfold Json.parse_tokens.
  change (Json.parse_from (Json.MValue, [])
            (Json.TLBracket :: elements_tokens (i :: l) ++ [Json.TRBracket]))
    with (Json.parse_from (Json.MFirstElem, [])
            (elements_tokens (i :: l) ++ [Json.TRBracket])).
  transitivity (Json.parse_from (Json.MValue, [Json.FArr []])
                  (elements_tokens (i :: l) ++ [Json.TRBracket])).
  - destruct l; reflexivity.
  - rewrite parse_elements. reflexivity.
Qed.

Lemma ingredients_json_inj l1 : forall l2,
  ingredients_json l1 = ingredients_json l2 -> l1 = l2.
Proof.
  unfold ingredients_json.
  induction l1 as [|[n1 q1] l1 IH]; intros [|[n2 q2] l2] H;
    try discriminate; [reflexivity |].
  injection H as -> -> H. f_equal. apply IH. f_equal. exact H.
Qed.

(** X7: the ingredient list the recipe prompt carries is valid JSON
    whatever the names and quantities contain (quotes, backslashes, control
    characters, unpaired surrogates): the prompt is its fixed opening, then
    a text that [JSON.parse] reads back as the array of the
    [{name, quantity}] objects in their order, then the rest. *)
Theorem recipe_prompt_ingredients_parse
    (ingredients : list Ingredient) (dietaryPreferences : list DietaryPreference) :
  exists text rest,
    getRecipeGenerationPrompt ingredients dietaryPreferences =
      newline ++ lit "I have the following ingredients: " ++ text ++ rest /\
    JSON_parse text = Some (ingredients_json ingredients).
Proof.
  exists (JSON_stringify ingredients). eexists. split.
  - unfold getRecipeGenerationPrompt. reflexivity.
  - apply JSON_stringify_parse.
Qed.

(** X8: for given preferences the recipe prompt tells the ingredient lists
    apart: two lists with the same prompt are the same list, names and
    quantities. *)
Theorem recipe_prompt_determines_ingredients
    (ingredients1 ingredients2 : list Ingredient)
    (dietaryPreferences : list DietaryPreference) :
  getRecipeGenerationPrompt ingredients1 dietaryPreferences =
    getRecipeGenerationPrompt ingredients2 dietaryPreferences ->
  ingredients1 = ingredients2.
Proof.
  unfold getRecipeGenerationPrompt. intros H.
  do 2 apply app_inv_head in H. apply app_inv_tail in H.
  apply ingredients_json_inj.
  pose proof (JSON_stringify_parse ingredients1) as H1.
  rewrite H, JSON_stringify_parse in H1. congruence.
Qed.

Lemma recipe_prompt_determines_ingredients_witness :
  [Sample.egg] = [mkIngredient (lit "egg") (lit "2")].
Proof.
  apply (recipe_prompt_determines_ingredients
           [Sample.egg] [mkIngredient (lit "egg") (lit "2")] [lit "vegan"]).
  reflexivity.
Defined.

(** ** Order of the requests and errors the caller sees *)

(** X13: [generateImages] sends all its image requests before anything
    else happens: its trace starts with one request per recipe, in order,
    and nothing after them goes to an inference endpoint, whether the
    requests are fulfilled or rejected. *)
Theorem generateImages_requests_first w batch userId :
  exists rest,
    events (generateImages batch userId) w =
      map (fun r => EvImagesGenerate (image_request r)) batch ++ rest /\
    inference_events rest = [].
Proof.
  unfold events. rewrite generateImages_run. cbv zeta.
  destruct (Promise_all (image_outcomes w 0 batch)) as [images|e];
    [destruct (name_images batch 0 images) |]; cbn [fst trace];
    rewrite <- ?app_assoc; eexists; (split; [reflexivity |]);
    rewrite ?inference_events_app, ?inference_events_save; reflexivity.
Qed.

(** X14: the caller only ever sees one error per function.  When
    [generateRecipe] or [validateIngredient] throws, the text request was
    rejected and the error is the fixed one of that function, not the
    reason of the rejection; whatever makes [generateImages] throw, the
    error is [Failed to generate image]. *)
Theorem errors_are_opaque w
    (batch : list Recipe) (ingredients : list Ingredient)
    (dietaryPreferences : list DietaryPreference)
    (ingredientName userId : jsstring) (e : exn) :
  (result (generateRecipe ingredients dietaryPreferences userId) w = Throw e ->
   e = recipe_error /\
   exists reason,
     hf_textGeneration w (recipe_request ingredients dietaryPreferences) =
       Rejected reason) /\
  (result (validateIngredient ingredientName userId) w = Throw e ->
   e = validation_error /\
   exists reason,
     hf_textGeneration w (validation_request ingredientName) = Rejected reason) /\
  (result (generateImages batch userId) w = Throw e -> e = image_error).
Proof.
  split; [| split].
  - unfold result. rewrite generateRecipe_run. cbv zeta.
    destruct (hf_textGeneration w _) as [r|reason]; [discriminate |].
    intros H. injection H as <-. eauto.
  - rewrite validateIngredient_result.
    destruct (hf_textGeneration w _) as [r|reason].
    + destruct (truthy (generated_text r)); [| discriminate].
      destruct (JSON_parse (trim (generated_text r))); discriminate.
    + intros H. injection H as <-. eauto.
  - rewrite generateImages_result.
    destruct (Promise_all (image_outcomes w 0 batch)) as [images|reason].
    + destruct (name_images batch 0 images); [discriminate |].
      intros H. injection H as <-. reflexivity.
    + intros H. injection H as <-. reflexivity.
Qed.

Lemma errors_are_opaque_witness :
  Error (lit "Failed to generate image") = image_error /\
  exists reason,
    hf_textGeneration Sample.unreachable (recipe_request [Sample.egg] []) =
      Rejected reason.
Proof.
  destruct (errors_are_opaque Sample.second_empty
              [Sample.omelette; Sample.toast] [] [] [] Sample.u1
              (Error (lit "Failed to generate image"))) as (_ & _ & Himg).
  destruct (errors_are_opaque Sample.unreachable [] [Sample.egg] [] []
              Sample.u1 (Error (lit "Failed to generate recipe")))
    as (Hrec & _ & _).
  split.
  - apply Himg. reflexivity.
  - apply Hrec. reflexivity.
Defined.

Lemma log_write_only_after_inference_witness :
  log_write_attempted
    (events (generateRecipe [Sample.egg] [] Sample.u1)
            (Sample.answering (lit "<json>"))) = true /\
  exists r,
    hf_textGeneration (Sample.answering Sample.valid_reply)
      (validation_request (lit "tofu")) = Fulfilled r.
Proof.
  destruct (log_write_only_after_inference (Sample.answering (lit "<json>"))
              Sample.u1) as (Hrecipe & _ & _).
  destruct (log_write_only_after_inference (Sample.answering Sample.valid_reply)
              Sample.u1) as (_ & _ & Hvalid).
  split.
  - apply Hrecipe. exists (mkHfResponse (lit "<json>")). reflexivity.
  - apply Hvalid. reflexivity.
Defined.
